(** * trakt_sync.py: a shallow embedding and its specification

    The script is a short-lived process: it loads [sync_settings.ini] into a
    module-level [ConfigParser], looks at its command-line options and runs
    one of four flows against the Trakt.tv API.  Everything it does is an
    effect (printing, prompting, HTTP, writing the settings file), so the
    embedding is a state-and-error monad over a [world] that records the
    effects as a chronological trace.

    Modelling boundaries, stated once:
    - [ConfigParser] is the key/value store the script uses it as: sections
      of string options.  The DEFAULT-section fallback and the
      [%]-interpolation of values are not part of the model.
    - JSON numbers are integers (the ids and years the service returns).
    - [input()] always returns: the operator is present. *)

From Stdlib Require Import ZArith String Ascii List Lia.
From stdpp Require Import base option list strings gmap pretty.

Set Warnings "-register-all".
Open Scope Z_scope.

(** ** Python values *)

(** Parsed JSON, also used for the dict literals the script builds.  A
    [JObj] keeps the insertion order of a Python dict; keys are distinct. *)
Inductive json :=
| JNull
| JBool (b : bool)
| JNum (n : Z)
| JStr (s : string)
| JArr (items : list json)
| JObj (fields : list (string * json)).

(** Exceptions that reach the top level uncaught. *)
Inductive exn :=
| TypeError
| KeyError
| IndexError
| AttributeError
| UnboundLocalError
| RecursionError
| JSONDecodeError
| ConnectionError
| NoSectionError
| NoOptionError.

(** How a computation ends: it returns, it calls [sys.exit], or an
    exception propagates. *)
Inductive outcome (A : Type) :=
| Ret (a : A)
| Exit (code : Z)
| Raise (e : exn).
Arguments Ret {A} a.
Arguments Exit {A} code.
Arguments Raise {A} e.

(** Exit status of the interpreter: an uncaught exception prints a
    traceback and gives status 1. *)
Definition exit_code {A} (o : outcome A) : Z :=
  match o with
  | Ret _ => 0
  | Exit c => c
  | Raise _ => 1
  end.

Fixpoint assoc (k : string) (kvs : list (string * json)) : option json :=
  match kvs with
  | [] => None
  | (k', v) :: rest => if String.eqb k k' then Some v else assoc k rest
  end.

(** [v[k]] with a string key. *)
Definition getitem (v : json) (k : string) : outcome json :=
  match v with
  | JObj kvs =>
      match assoc k kvs with
      | Some x => Ret x
      | None => Raise KeyError
      end
  | _ => Raise TypeError
  end.

(** [v[0]]. *)
Definition getitem0 (v : json) : outcome json :=
  match v with
  | JArr (x :: _) => Ret x
  | JArr [] => Raise IndexError
  | JStr (String c _) => Ret (JStr (String c EmptyString))
  | JStr EmptyString => Raise IndexError
  | JObj _ => Raise KeyError
  | _ => Raise TypeError
  end.

(** ** The settings store *)

Abbreviation cfg := (gmap string (gmap string string)).

(** [config.get(section, option)]. *)
Definition cfg_get (c : cfg) (section option : string) : exn + string :=
  match c !! section with
  | None => inl NoSectionError
  | Some opts =>
      match opts !! option with
      | None => inl NoOptionError
      | Some v => inr v
      end
  end.

(** [config.set(section, option, value)] on a [str] value: the section
    must exist. *)
Definition cfg_set (c : cfg) (section option value : string) : exn + cfg :=
  match c !! section with
  | None => inl NoSectionError
  | Some opts => inr (<[section := <[option := value]> opts]> c)
  end.

(** ** Effects *)

Inductive http_method := GET | POST.

Record request := {
  meth : http_method;
  url : string;
  headers : list (string * string);
  payload : option json
}.

(** What [requests] hands back: [body] is [None] when the body is not
    JSON, so that [r.json()] raises. *)
Record response := {
  status_code : Z;
  body : option json
}.

Record datetime := {
  year : Z; month : Z; day : Z;
  hour : Z; minute : Z; second : Z;
  microsecond : Z
}.

Inductive event :=
| EPrint (msg : string)
| EInput (prompt : string)
| ERemote (req : request)
| ESet (section option value : string)
| ESave (snapshot : cfg).

Record world := {
  credential_path : string;   (* directory the script lives in *)
  config : cfg;               (* the module-level [config] object *)
  disk : option cfg;          (* sync_settings.ini, [None] when absent *)
  writable : bool;            (* can the file be opened for writing? *)
  inbox : list response;      (* answers of the remote side, in order *)
  utcnow : datetime;          (* the clock *)
  trace : list event          (* effects so far, oldest first *)
}.

(** Field updates. *)
Definition log (e : event) (w : world) : world :=
  {| credential_path := credential_path w; config := config w;
     disk := disk w; writable := writable w; inbox := inbox w;
     utcnow := utcnow w; trace := trace w ++ [e] |}.

Definition with_config (c : cfg) (w : world) : world :=
  {| credential_path := credential_path w; config := c;
     disk := disk w; writable := writable w; inbox := inbox w;
     utcnow := utcnow w; trace := trace w |}.

Definition with_disk (d : option cfg) (w : world) : world :=
  {| credential_path := credential_path w; config := config w;
     disk := d; writable := writable w; inbox := inbox w;
     utcnow := utcnow w; trace := trace w |}.

Definition with_inbox (rs : list response) (w : world) : world :=
  {| credential_path := credential_path w; config := config w;
     disk := disk w; writable := writable w; inbox := rs;
     utcnow := utcnow w; trace := trace w |}.

Definition M (A : Type) : Type := world → outcome A * world.

Global Instance M_ret : MRet M := λ A a w, (Ret a, w).
Global Instance M_bind : MBind M := λ A B f m w,
  match m w with
  | (Ret a, w') => f a w'
  | (Exit c, w') => (Exit c, w')
  | (Raise e, w') => (Raise e, w')
  end.

Definition raise {A} (e : exn) : M A := λ w, (Raise e, w).
Definition sys_exit {A} (code : Z) : M A := λ w, (Exit code, w).

(** Lift a pure step that may raise. *)
Definition lift {A} (o : outcome A) : M A := λ w, (o, w).

(** [try: body / except <caught>: handler]. *)
Definition try_except {A} (body : M A) (caught : exn → bool) (handler : M A)
  : M A := λ w,
  match body w with
  | (Raise e, w') => if caught e then handler w' else (Raise e, w')
  | done => done
  end.

Definition emit (e : event) : M unit := λ w, (Ret (), log e w).

Definition print (msg : string) : M unit := emit (EPrint msg).
Definition input (prompt : string) : M string :=
  emit (EInput prompt);; mret EmptyString.

Definition config_get (section option : string) : M string := λ w,
  match cfg_get (config w) section option with
  | inr v => (Ret v, w)
  | inl e => (Raise e, w)
  end.

(** [ConfigParser.set] checks that the value is a [str] before it looks
    for the section. *)
Definition config_set (section option : string) (value : json) : M unit := λ w,
  match value with
  | JStr s =>
      match cfg_set (config w) section option s with
      | inr c' => (Ret (), log (ESet section option s) (with_config c' w))
      | inl e => (Raise e, w)
      end
  | _ => (Raise TypeError, w)
  end.

(** [requests.get] / [requests.post]: the request goes out, the next
    answer comes back; with no answer the library raises. *)
Definition send (req : request) : M response := λ w,
  match inbox w with
  | r :: rest => (Ret r, log (ERemote req) (with_inbox rest w))
  | [] => (Raise ConnectionError, log (ERemote req) w)
  end.

Definition requests_post (u : string) (json_body : json)
    (hs : list (string * string)) : M response :=
  send {| meth := POST; url := u; headers := hs; payload := Some json_body |}.

Definition requests_get (u : string) (hs : list (string * string))
  : M response :=
  send {| meth := GET; url := u; headers := hs; payload := None |}.

(** [r.json()]. *)
Definition r_json (r : response) : M json :=
  match body r with
  | Some j => mret j
  | None => raise JSONDecodeError
  end.

Definition now : M datetime := λ w, (Ret (utcnow w), w).

(** A call [obj.f(a1, ..., an)] passes [obj] as the first positional
    argument, so the callee receives [n + 1] of them; when the [def] has a
    different number of parameters the call raises before the body runs. *)
Definition bound_call {A} (params args : nat) (body : M A) : M A :=
  if (S args =? params)%nat then body else raise TypeError.

(** ** Strings *)

(** [s.split(sep)] for a one-character separator. *)
Fixpoint split_on (sep : ascii) (s : string) : list string :=
  match s with
  | EmptyString => [EmptyString]
  | String c rest =>
      if Ascii.eqb c sep then EmptyString :: split_on sep rest
      else match split_on sep rest with
           | piece :: pieces => String c piece :: pieces
           | [] => [String c EmptyString]
           end
  end.

Definition dquote : string := String "034"%char EmptyString.

Fixpoint zeros (n : nat) : string :=
  match n with
  | O => EmptyString
  | S k => String "0" (zeros k)
  end.

(** [%02d]-style rendering: decimal digits, zero-padded on the left to
    [width] characters, never truncated. *)
Definition padded (width : nat) (n : Z) : string :=
  zeros (width - String.length (pretty n)) +:+ pretty n.

(** [dt.strftime('%Y-%m-%dT%H:%M:%S.000Z')]. *)
Definition strftime_watched (dt : datetime) : string :=
  padded 4 (year dt) +:+ "-" +:+ padded 2 (month dt) +:+ "-" +:+
  padded 2 (day dt) +:+ "T" +:+ padded 2 (hour dt) +:+ ":" +:+
  padded 2 (minute dt) +:+ ":" +:+ padded 2 (second dt) +:+ ".000Z".

(** ** The script *)

Record options := {
  userId : Z;
  contentType : string;
  tvdbId : option Z;
  season : option Z;
  episode : option Z;
  imdbId : option string
}.

(** An optional command-line value as the Python object it becomes. *)
Definition of_int (o : option Z) : json :=
  match o with Some n => JNum n | None => JNull end.
Definition of_str (o : option string) : json :=
  match o with Some s => JStr s | None => JNull end.

(** Instance attributes; which ones exist depends on the constructor's
    path, so each is optional. *)
Record Trakt := {
  type : option string;
  imdb_id : option json;
  tvdb_id : option json;
  season_num : option json;
  episode_num : option json;
  client_id : string;
  client_secret : string
}.

(** [self.name]. *)
Definition attr {A} (a : option A) : M A :=
  match a with
  | Some v => mret v
  | None => raise AttributeError
  end.

Definition credential_file : string := "sync_settings.ini".

Definition settings_path : M string := λ w,
  (Ret (credential_path w +:+ "/" +:+ credential_file), w).

Definition write_settings : M unit := λ w,
  if writable w
  then (Ret (), log (ESave (config w)) (with_disk (Some (config w)) w))
  else (p ← settings_path;
        print ("ERROR: unable to write to " +:+ p);;
        sys_exit 1) w.

(** [except (NoSectionError, NoOptionError)]. *)
Definition lookup_errors (e : exn) : bool :=
  match e with
  | NoSectionError | NoOptionError => true
  | _ => false
  end.

(** The handler shared by every lookup: name the missing field, exit 1. *)
Definition not_setup {A} (field : string) : M A :=
  print ("ERROR: " +:+ credential_file +:+ " not setup - missing " +:+ field);;
  sys_exit 1.

Definition sync_for_user (user_id : Z) : M bool :=
  user_ids ← try_except (config_get "Plex" "user_ids") lookup_errors
                (not_setup "user_ids");
  mret (bool_decide (pretty user_id ∈ split_on "," user_ids)).

Definition Trakt_init (ty : option string) (id season_n episode_n : json)
  : M Trakt :=
  let named t := match ty with Some s => String.eqb s t | None => false end in
  cid ← try_except (config_get "Trakt" "client_id") lookup_errors
           (not_setup "client_id");
  secret ← try_except (config_get "Trakt" "client_secret") lookup_errors
              (not_setup "client_secret");
  mret (if named "movie" then
          {| type := Some "movie"; imdb_id := Some id; tvdb_id := None;
             season_num := None; episode_num := None;
             client_id := cid; client_secret := secret |}
        else if named "episode" then
          {| type := Some "episode"; imdb_id := None; tvdb_id := Some id;
             season_num := Some season_n; episode_num := Some episode_n;
             client_id := cid; client_secret := secret |}
        else
          {| type := None; imdb_id := None; tvdb_id := None;
             season_num := None; episode_num := None;
             client_id := cid; client_secret := secret |}).

Definition get_access_token : M string :=
  try_except (config_get "Trakt" "access_token") lookup_errors
    (not_setup "access_token").

Definition get_refresh_token : M string :=
  try_except (config_get "Trakt" "refresh_token") lookup_errors
    (not_setup "refresh_token").

(** What the process finds when it starts. *)
Record environment := {
  script_dir : string;
  settings : option cfg;        (* the parsed settings file, if it opens *)
  settings_writable : bool;
  remote : list response;
  clock : datetime
}.

Definition boot (env : environment) (c : cfg) : world :=
  {| credential_path := script_dir env; config := c; disk := settings env;
     writable := settings_writable env; inbox := remote env;
     utcnow := clock env; trace := [] |}.

(** ** Sample data, for the statements at concrete inputs *)

Module Sample.

Definition repr (v : json) : string := "[...]".
Definition limit : nat := 1000.

Definition full : cfg :=
  {[ "Plex" := {[ "user_ids" := "12,34" ]};
     "Trakt" := {[ "client_id" := "cid"; "client_secret" := "secret";
                   "access_token" := "a0"; "refresh_token" := "r0" ]} ]}.

Definition no_user_ids : cfg :=
  {[ "Trakt" := {[ "client_id" := "cid"; "client_secret" := "secret" ]} ]}.

Definition no_client_id : cfg :=
  {[ "Plex" := {[ "user_ids" := "12,34" ]};
     "Trakt" := {[ "client_secret" := "secret" ]} ]}.

Definition noon : datetime :=
  {| year := 2024; month := 3; day := 9; hour := 12; minute := 0;
     second := 7; microsecond := 123456 |}.

Definition env_of (c : cfg) (answers : list response) : environment :=
  {| script_dir := "/opt/scripts"; settings := Some c;
     settings_writable := true; remote := answers; clock := noon |}.

Definition opts_of (user : Z) (content : string) : options :=
  {| userId := user; contentType := content; tvdbId := Some 81189;
     season := Some 1; episode := Some 2; imdbId := Some "tt0133093" |}.

Definition me : Trakt :=
  {| type := None; imdb_id := None; tvdb_id := None; season_num := None;
     episode_num := None; client_id := "cid"; client_secret := "secret" |}.

Definition tokens (status : Z) (a r : string) : response :=
  {| status_code := status;
     body := Some (JObj [("access_token", JStr a);
                         ("refresh_token", JStr r);
                         ("expires_in", JNum 7776000)]) |}.

Definition world_of (c : cfg) (answers : list response) : world :=
  boot (env_of c answers) c.

(** The stub of the specification's test: a movie and its ids. *)
Definition movie_x : json :=
  JObj [("title", JStr "X"); ("year", JNum 2000);
        ("ids", JObj [("trakt", JNum 1); ("slug", JStr "x");
                      ("imdb", JStr "ttX"); ("tmdb", JNum 2)])].

Definition movie_found : response :=
  {| status_code := 200;
     body := Some (JArr [JObj [("type", JStr "movie"); ("movie", movie_x)]]) |}.

Definition show_y : json :=
  JObj [("title", JStr "Y"); ("year", JNum 2010);
        ("ids", JObj [("trakt", JNum 5); ("slug", JStr "y");
                      ("tvdb", JNum 81189)])].

Definition show_found : response :=
  {| status_code := 200;
     body := Some (JArr [JObj [("type", JStr "show"); ("show", show_y)]]) |}.

Definition episode_found : response :=
  {| status_code := 200;
     body := Some (JObj [("season", JNum 1); ("number", JNum 2);
                         ("title", JStr "Pilot");
                         ("ids", JObj [("trakt", JNum 7); ("tvdb", JNum 8);
                                       ("imdb", JStr "tt9");
                                       ("tmdb", JNum 10)])]) |}.

Definition created : response := {| status_code := 201; body := Some (JObj []) |}.

Definition a_movie : Trakt :=
  {| type := Some "movie"; imdb_id := Some (JStr "tt0133093");
     tvdb_id := None; season_num := None; episode_num := None;
     client_id := "cid"; client_secret := "secret" |}.

Definition an_episode : Trakt :=
  {| type := Some "episode"; imdb_id := None; tvdb_id := Some (JNum 81189);
     season_num := Some (JNum 1); episode_num := Some (JNum 2);
     client_id := "cid"; client_secret := "secret" |}.

Definition no_client_secret : cfg :=
  {[ "Plex" := {[ "user_ids" := "12,34" ]};
     "Trakt" := {[ "client_id" := "cid" ]} ]}.

Definition issued : response :=
  {| status_code := 200;
     body := Some (JObj [("device_code", JStr "dc");
                         ("user_code", JStr "ABCD1234");
                         ("verification_url",
                          JStr "https://trakt.tv/activate");
                         ("expires_in", JNum 600);
                         ("interval", JNum 5)]) |}.


Definition no_hit : response :=
  {| status_code := 200; body := Some (JArr []) |}.


End Sample.

Section Interpreter.

(** Two properties of the Python interpreter that the script's text does
    not fix: how [str()] renders a list or a dict (its [repr]), and how deep
    calls may nest before [RecursionError]. *)
Variable container_repr : json → string.
Variable recursion_limit : nat.

(** [str(v)]. *)
Definition py_str (v : json) : string :=
  match v with
  | JNull => "None"
  | JBool true => "True"
  | JBool false => "False"
  | JNum n => pretty n
  | JStr s => s
  | JArr _ | JObj _ => container_repr v
  end.

Definition generate_device_code (self : Trakt) (hs : list (string * string))
  : M json :=
  let payload := JObj [("client_id", JStr (client_id self))] in
  r ← requests_post "https://api.trakt.tv/oauth/device/code" payload hs;
  response ← r_json r;
  verification_url ← lift (getitem response "verification_url");
  user_code ← lift (getitem response "user_code");
  print ("Please go to " +:+ py_str verification_url +:+
         " and insert the following code: " +:+
         dquote +:+ py_str user_code +:+ dquote);;
  input "I have authorized the application! Press ENTER to continue:";;
  lift (getitem response "device_code").

(** [def poll_access_token(self, headers, device_code)]. *)
Definition poll_access_token_params : nat := 3.

(** [depth] is the number of nested calls the interpreter still allows.
    The retry is written [self.poll_access_token(self, headers,
    device_code)]: a bound call with three explicit arguments. *)
Fixpoint poll_access_token (depth : nat) (self : Trakt)
    (hs : list (string * string)) (device_code : json) : M unit :=
  let payload := JObj [("code", device_code);
                       ("client_id", JStr (client_id self));
                       ("client_secret", JStr (client_secret self))] in
  r ← requests_post "https://api.trakt.tv/oauth/device/token" payload hs;
  if status_code r =? 400 then
    input "The device hasn't been authorized yet, please do so. Press ENTER to continue:";;
    bound_call poll_access_token_params 3
      match depth with
      | O => raise RecursionError
      | S depth' => poll_access_token depth' self hs device_code
      end
  else if negb (status_code r =? 200) then
    print "Something went wrong, please try again.";;
    sys_exit 1
  else
    response ← r_json r;
    access ← lift (getitem response "access_token");
    config_set "Trakt" "access_token" access;;
    refresh ← lift (getitem response "refresh_token");
    config_set "Trakt" "refresh_token" refresh;;
    write_settings;;
    print "Succesfully configured your Trakt.tv sync!".

Definition authenticate (self : Trakt) : M unit :=
  let hs := [("Content-Type", "application/json")] in
  device_code ← generate_device_code self hs;
  bound_call poll_access_token_params 2
    (poll_access_token recursion_limit self hs device_code).

Definition refresh_access_token (self : Trakt) : M unit :=
  let hs := [("Content-Type", "application/json")] in
  stored ← get_refresh_token;
  let payload := JObj [("refresh_token", JStr stored);
                       ("client_id", JStr (client_id self));
                       ("client_secret", JStr (client_secret self));
                       ("redirect_uri", JStr "urn:ietf:wg:oauth:2.0:oob");
                       ("grant_type", JStr "refresh_token")] in
  r ← requests_post "https://api.trakt.tv/oauth/token" payload hs;
  response ← r_json r;
  access ← lift (getitem response "access_token");
  config_set "Trakt" "access_token" access;;
  refresh ← lift (getitem response "refresh_token");
  config_set "Trakt" "refresh_token" refresh;;
  write_settings;;
  print "Refreshed access token succesfully!".

Definition api_headers (self : Trakt) : list (string * string) :=
  [("Content-Type", "application/json");
   ("trakt-api-version", "2");
   ("trakt-api-key", client_id self)].

Definition get_movie (self : Trakt) : M json :=
  id ← attr (imdb_id self);
  r ← requests_get ("https://api.trakt.tv/search/imdb/" +:+ py_str id +:+
                    "?type=movie") (api_headers self);
  response ← r_json r;
  first ← lift (getitem0 response);
  lift (getitem first "movie").

Definition get_show (self : Trakt) : M json :=
  id ← attr (tvdb_id self);
  r ← requests_get ("https://api.trakt.tv/search/tvdb/" +:+ py_str id +:+
                    "?type=show") (api_headers self);
  response ← r_json r;
  first ← lift (getitem0 response);
  lift (getitem first "show").

Definition get_episode (self : Trakt) (show : json) : M json :=
  ids ← lift (getitem show "ids");
  slug ← lift (getitem ids "slug");
  s ← attr (season_num self);
  e ← attr (episode_num self);
  r ← requests_get ("https://api.trakt.tv/shows/" +:+ py_str slug +:+
                    "/seasons/" +:+ py_str s +:+
                    "/episodes/" +:+ py_str e) (api_headers self);
  r_json r.

(** [v['ids'][k]]. *)
Definition id_of (v : json) (k : string) : M json :=
  ids ← lift (getitem v "ids");
  lift (getitem ids k).

Definition movie_payload (watched_at : string) (movie : json) : M json :=
  title ← lift (getitem movie "title");
  yr ← lift (getitem movie "year");
  trakt ← id_of movie "trakt";
  slug ← id_of movie "slug";
  imdb ← id_of movie "imdb";
  tmdb ← id_of movie "tmdb";
  mret (JObj [("movies", JArr [JObj [
          ("watched_at", JStr watched_at);
          ("title", title);
          ("year", yr);
          ("ids", JObj [("trakt", trakt); ("slug", slug);
                        ("imdb", imdb); ("tmdb", tmdb)])]])]).

Definition episode_payload (watched_at : string) (ep : json) : M json :=
  trakt ← id_of ep "trakt";
  tvdb ← id_of ep "tvdb";
  imdb ← id_of ep "imdb";
  tmdb ← id_of ep "tmdb";
  mret (JObj [("episodes", JArr [JObj [
          ("watched_at", JStr watched_at);
          ("ids", JObj [("trakt", trakt); ("tvdb", tvdb);
                        ("imdb", imdb); ("tmdb", tmdb)])]])]).

Definition sync_history (self : Trakt) : M unit :=
  access_token ← get_access_token;
  dt ← now;
  let watched_at := strftime_watched dt in
  let hs := [("Content-Type", "application/json");
             ("Authorization", "Bearer " +:+ access_token);
             ("trakt-api-version", "2");
             ("trakt-api-key", client_id self)] in
  ty ← attr (type self);
  payload ←
    (if String.eqb ty "movie" then
       movie ← get_movie self;
       movie_payload watched_at movie
     else if String.eqb ty "episode" then
       show ← get_show self;
       ep ← get_episode self show;
       episode_payload watched_at ep
     else raise UnboundLocalError);
  requests_post "https://api.trakt.tv/sync/history" payload hs;;
  mret ().

Definition main (opts : options) : M unit :=
  allowed ← sync_for_user (userId opts);
  if negb allowed && negb (userId opts =? -1) then
    print "We will not sync for this user";;
    sys_exit 0
  else if String.eqb (contentType opts) "trakt_authenticate" then
    trakt ← Trakt_init None JNull JNull (JStr "");
    authenticate trakt
  else if String.eqb (contentType opts) "trakt_refresh" then
    trakt ← Trakt_init None JNull JNull (JStr "");
    refresh_access_token trakt
  else if String.eqb (contentType opts) "movie" then
    trakt ← Trakt_init (Some "movie") (of_str (imdbId opts)) (JStr "") (JStr "");
    refresh_access_token trakt;;
    sync_history trakt
  else if String.eqb (contentType opts) "episode" then
    trakt ← Trakt_init (Some "episode") (of_int (tvdbId opts))
               (of_int (season opts)) (of_int (episode opts));
    refresh_access_token trakt;;
    sync_history trakt
  else
    print ("ERROR: " +:+ contentType opts +:+ " not found - invalid contentType").

(** The module body followed by the [__main__] block. *)
Definition script (env : environment) (opts : options) : outcome unit * world :=
  match settings env with
  | None =>
      (p ← settings_path;
       print ("ERROR: " +:+ p +:+ " not found");;
       sys_exit 1) (boot env ∅)
  | Some c => main opts (boot env c)
  end.

(** ** Observations on a run *)

Definition stored (c : cfg) (section name : string) : option string :=
  c !! section ≫= (.!! name).

Definition is_remote (e : event) : bool :=
  match e with ERemote _ => true | _ => false end.

Definition is_save (e : event) : bool :=
  match e with ESave _ => true | _ => false end.

Definition is_mutation (e : event) : bool :=
  match e with ESet _ _ _ | ESave _ => true | _ => false end.

Definition remote_calls (t : list event) : nat := length (List.filter is_remote t).
Definition saves (t : list event) : nat := length (List.filter is_save t).
Definition mutations (t : list event) : nat := length (List.filter is_mutation t).

(** The allow-list gate of [__main__] lets the invocation through. *)
Definition let_through (c : cfg) (user_id : Z) : Prop :=
  ∃ ids, stored c "Plex" "user_ids" = Some ids ∧
         (pretty user_id ∈ split_on "," ids ∨ user_id = -1).

Definition recognised (content_type : string) : Prop :=
  content_type ∈ ["trakt_authenticate"; "trakt_refresh"; "movie"; "episode"].

(** ** Requests and payloads the script builds *)


Definition poll_request (self : Trakt) (hs : list (string * string))
    (device_code : json) : request :=
  {| meth := POST;
     url := "https://api.trakt.tv/oauth/device/token";
     headers := hs;
     payload := Some (JObj [("code", device_code);
                            ("client_id", JStr (client_id self));
                            ("client_secret", JStr (client_secret self))]) |}.

Definition pending_prompt : string :=
  "The device hasn't been authorized yet, please do so. Press ENTER to continue:".

(** The settings after both tokens have been set in section [Trakt]. *)
Definition with_tokens (a r : string) (c : cfg) : cfg :=
  match c !! "Trakt" with
  | Some opts =>
      <["Trakt" := <["refresh_token" := r]> (<["access_token" := a]> opts)]> c
  | None => c
  end.


(** [v['ids'][k]] as a pure lookup. *)
Definition lookup_id (v : json) (k : string) : outcome json :=
  match getitem v "ids" with
  | Ret ids => getitem ids k
  | failed => failed
  end.

Definition movie_entry (watched_at : string) (title yr : json)
    (trakt slug imdb tmdb : json) : json :=
  JObj [("movies", JArr [JObj [
    ("watched_at", JStr watched_at);
    ("title", title);
    ("year", yr);
    ("ids", JObj [("trakt", trakt); ("slug", slug);
                  ("imdb", imdb); ("tmdb", tmdb)])]])].

Definition episode_entry (watched_at : string)
    (trakt tvdb imdb tmdb : json) : json :=
  JObj [("episodes", JArr [JObj [
    ("watched_at", JStr watched_at);
    ("ids", JObj [("trakt", trakt); ("tvdb", tvdb);
                  ("imdb", imdb); ("tmdb", tmdb)])]])].

Definition search_request (self : Trakt) (u : string) : request :=
  {| meth := GET; url := u; headers := api_headers self; payload := None |}.

Definition history_request (self : Trakt) (access_token : string)
    (entry : json) : request :=
  {| meth := POST;
     url := "https://api.trakt.tv/sync/history";
     headers := [("Content-Type", "application/json");
                 ("Authorization", "Bearer " +:+ access_token);
                 ("trakt-api-version", "2");
                 ("trakt-api-key", client_id self)];
     payload := Some entry |}.

Definition history_url : string := "https://api.trakt.tv/sync/history".

(** ** Judgements on computations

    Most of the script only prints, prompts and sends requests.  [quiet]
    says so for one computation: the settings in memory and on disk stay
    as they are, and every event it adds to the trace satisfies [P].  The
    clock is fixed, since the stamp of a payload depends on it. *)
Definition quiet (clock : datetime) (P : event → Prop) {A} (m : M A)
  : Prop :=
  ∀ w, utcnow w = clock →
    config (m w).2 = config w ∧
    disk (m w).2 = disk w ∧
    utcnow (m w).2 = clock ∧
    ∃ evs, trace (m w).2 = trace w ++ evs ∧ Forall P evs.

(** What a computation returns, when it returns. *)
Definition returns {A} (Q : A → Prop) (m : M A) : Prop :=
  ∀ w a, (m w).1 = Ret a → Q a.

(** ** Reading a timestamp back

    A reader for the one layout the script writes:
    [YYYY-MM-DDTHH:MM:SS.000Z], nothing before and nothing after. *)
Definition digit_value (c : ascii) : option Z :=
  let n := Z.of_nat (nat_of_ascii c) in
  if (48 <=? n) && (n <=? 57) then Some (n - 48) else None.

Fixpoint read_digits (k : nat) (s : string) (acc : Z) : option (Z * string) :=
  match k with
  | O => Some (acc, s)
  | S k' =>
      match s with
      | String c rest =>
          match digit_value c with
          | Some d => read_digits k' rest (10 * acc + d)
          | None => None
          end
      | EmptyString => None
      end
  end.

Fixpoint expect (lit s : string) : option string :=
  match lit with
  | EmptyString => Some s
  | String c lit' =>
      match s with
      | String c' s' => if Ascii.eqb c c' then expect lit' s' else None
      | EmptyString => None
      end
  end.

Definition parse_watched (s : string) : option datetime :=
  '(y, s) ← read_digits 4 s 0;
  s ← expect "-" s;
  '(mo, s) ← read_digits 2 s 0;
  s ← expect "-" s;
  '(d, s) ← read_digits 2 s 0;
  s ← expect "T" s;
  '(h, s) ← read_digits 2 s 0;
  s ← expect ":" s;
  '(mi, s) ← read_digits 2 s 0;
  s ← expect ":" s;
  '(se, s) ← read_digits 2 s 0;
  s ← expect ".000Z" s;
  match s with
  | EmptyString =>
      Some {| year := y; month := mo; day := d; hour := h; minute := mi;
              second := se; microsecond := 0 |}
  | _ => None
  end.

(** The fields [datetime.utcnow()] can hold, for years of four digits. *)
Definition valid_datetime (dt : datetime) : Prop :=
  1000 ≤ year dt ≤ 9999 ∧ 1 ≤ month dt ≤ 12 ∧ 1 ≤ day dt ≤ 31 ∧
  0 ≤ hour dt ≤ 23 ∧ 0 ≤ minute dt ≤ 59 ∧ 0 ≤ second dt ≤ 59 ∧
  0 ≤ microsecond dt ≤ 999999.

Definition whole_second (dt : datetime) : datetime :=
  {| year := year dt; month := month dt; day := day dt; hour := hour dt;
     minute := minute dt; second := second dt; microsecond := 0 |}.

(** A history request carries one entry whose first field is the stamp. *)
Definition stamped (clock : datetime) (e : event) : Prop :=
  match e with
  | ERemote req =>
      url req = history_url →
      ∃ kind fields,
        payload req =
          Some (JObj [(kind, JArr [JObj (("watched_at",
                         JStr (strftime_watched clock)) :: fields)])])
  | _ => True
  end.

(** The check run over a whole range of numbers: the padded digits read
    back as the number and fill the width. *)
Definition reads_back (width : nat) (n : Z) : bool :=
  match read_digits width (padded width n) 0 with
  | Some (v, EmptyString) => (v =? n) && (String.length (padded width n) =? width)%nat
  | _ => false
  end.

(** ** The token ledger

    A ledger follows the tokens along a trace.  [Clean]: nothing set since
    the last save.  Setting [access_token] is allowed only when [Clean] and
    gives [HalfSet]; the only thing that may be set next is
    [refresh_token], giving [BothSet]; a save is allowed only then, and
    only of a snapshot that holds exactly these two values.  A request is
    allowed only when [Clean]. *)
Inductive ledger :=
| Clean
| HalfSet (a : string)
| BothSet (a r : string).

Definition ledger_step (st : ledger) (e : event) : option ledger :=
  match e with
  | EPrint _ | EInput _ => Some st
  | ERemote _ =>
      match st with
      | Clean => Some Clean
      | _ => None
      end
  | ESet section name v =>
      match st with
      | Clean =>
          if String.eqb section "Trakt" && String.eqb name "access_token"
          then Some (HalfSet v) else None
      | HalfSet a =>
          if String.eqb section "Trakt" && String.eqb name "refresh_token"
          then Some (BothSet a v) else None
      | BothSet _ _ => None
      end
  | ESave c =>
      match st with
      | BothSet a r =>
          if bool_decide (stored c "Trakt" "access_token" = Some a ∧
                          stored c "Trakt" "refresh_token" = Some r)
          then Some Clean else None
      | _ => None
      end
  end.

Fixpoint ledger_run (st : ledger) (t : list event) : option ledger :=
  match t with
  | [] => Some st
  | e :: t' =>
      match ledger_step st e with
      | Some st' => ledger_run st' t'
      | None => None
      end
  end.

(** The disk holds what it held at the start, or a pair of tokens. *)
Definition paired_or_untouched (d0 d : option cfg) : Prop :=
  d = d0 ∨
  ∃ c a r, d = Some c ∧
           stored c "Trakt" "access_token" = Some a ∧
           stored c "Trakt" "refresh_token" = Some r.

(** Nothing is pending; and a world is sound when its trace is accepted
    and, with nothing pending, its file agrees with its memory. *)
Definition clean (w : world) : Prop :=
  ledger_run Clean (trace w) = Some Clean.

Definition sound (d0 : option cfg) (w : world) : Prop :=
  paired_or_untouched d0 (disk w) ∧
  match ledger_run Clean (trace w) with
  | Some Clean => disk w = Some (config w)
  | Some _ => True
  | None => False
  end.

(** From a clean and sound world the computation keeps the world sound,
    and clean again if it returns. *)
Definition safe (d0 : option cfg) {A} (m : M A) : Prop :=
  ∀ w, sound d0 w → clean w →
    sound d0 (m w).2 ∧ ∀ a, (m w).1 = Ret a → clean (m w).2.

(** The tail shared by the two writers of tokens. *)
Definition store_tokens (response : json) (msg : string) : M unit :=
  access ← lift (getitem response "access_token");
  config_set "Trakt" "access_token" access;;
  refresh ← lift (getitem response "refresh_token");
  config_set "Trakt" "refresh_token" refresh;;
  write_settings;;
  print msg.

(** ** The order of a run

    What a run does to the outside, with the conversation left out: the
    requests by endpoint, the tokens set, the saves. *)
Inductive endpoint :=
| DeviceCode
| DeviceToken
| Token
| Lookup
| History
| Elsewhere.

Definition endpoint_of (u : string) : endpoint :=
  if String.eqb u "https://api.trakt.tv/oauth/device/code" then DeviceCode
  else if String.eqb u "https://api.trakt.tv/oauth/device/token" then DeviceToken
  else if String.eqb u "https://api.trakt.tv/oauth/token" then Token
  else if String.eqb u history_url then History
  else if String.prefix "https://api.trakt.tv/search" u
          || String.prefix "https://api.trakt.tv/shows" u then Lookup
  else Elsewhere.

Inductive step :=
| Request (e : endpoint)
| SetToken (name : string)
| Save.

Definition step_of (e : event) : option step :=
  match e with
  | ERemote req => Some (Request (endpoint_of (url req)))
  | ESet _ name _ => Some (SetToken name)
  | ESave _ => Some Save
  | EPrint _ | EInput _ => None
  end.

Definition steps (t : list event) : list step := omap step_of t.

Definition is_request (s : step) : bool :=
  match s with Request _ => true | _ => false end.

Definition is_saving (s : step) : bool :=
  match s with Save => true | _ => false end.

Definition is_poll (s : step) : bool :=
  match s with Request DeviceToken => true | _ => false end.

Definition store_plan : list step :=
  [SetToken "access_token"; SetToken "refresh_token"; Save].

(** What [sync_history] does, by the kind of the item. *)
Definition history_plan (ty : option string) : list step :=
  match ty with
  | Some t =>
      if String.eqb t "movie" then [Request Lookup; Request History]
      else if String.eqb t "episode"
      then [Request Lookup; Request Lookup; Request History]
      else []
  | None => []
  end.

(** What a whole invocation does, by its content type. *)
Definition plan (content_type : string) : list step :=
  if String.eqb content_type "trakt_authenticate"
  then Request DeviceCode :: Request DeviceToken :: store_plan
  else if String.eqb content_type "trakt_refresh"
  then Request Token :: store_plan
  else if String.eqb content_type "movie"
  then Request Token :: store_plan ++ history_plan (Some "movie")
  else if String.eqb content_type "episode"
  then Request Token :: store_plan ++ history_plan (Some "episode")
  else [].

(** [m] works through [seg]: the steps it adds are a prefix of [seg], all
    of [seg] when it returns; and when it exits, the status is 0 or 1. *)
Definition follows (seg : list step) {A} (m : M A) : Prop :=
  ∀ w, ∃ evs,
    trace (m w).2 = trace w ++ evs ∧
    steps evs `prefix_of` seg ∧
    (∀ a, (m w).1 = Ret a → steps evs = seg) ∧
    (∀ c, (m w).1 = Exit c → c = 0 ∨ c = 1).

(** [sep.join(pieces)]. *)
Fixpoint join (sep : string) (pieces : list string) : string :=
  match pieces with
  | [] => EmptyString
  | [piece] => piece
  | piece :: rest => piece +:+ sep +:+ join sep rest
  end.

(** No character of [s] is [c]. *)
Fixpoint free_of (c : ascii) (s : string) : bool :=
  match s with
  | EmptyString => true
  | String c' s' => negb (Ascii.eqb c' c) && free_of c s'
  end.


(** ** Basic facts *)

Local Arguments config_set : simpl never.
Local Arguments config_get : simpl never.
Local Arguments write_settings : simpl never.
Local Arguments send : simpl never.
Local Arguments stored : simpl never.
Local Arguments pretty : simpl never.
Local Arguments split_on : simpl never.

Lemma cfg_get_stored c section name :
  cfg_get c section name =
    match stored c section name with
    | Some v => inr v
    | None => inl match c !! section with
             | Some _ => NoOptionError
             | None => NoSectionError
             end
    end.
Proof.
  unfold cfg_get, stored. destruct (c !! section) as [opts|]; simpl; [|done].
  by destruct (opts !! name).
Qed.

Lemma get_or_not_setup_found section name v w :
  stored (config w) section name = Some v →
  try_except (config_get section name) lookup_errors (not_setup name) w
  = (Ret v, w).
Proof.
  intros H. unfold try_except, config_get. by rewrite cfg_get_stored, H.
Qed.

Lemma get_or_not_setup_missing section name w :
  stored (config w) section name = None →
  try_except (config_get section name) lookup_errors (not_setup name) w
  = (Exit 1, log (EPrint ("ERROR: " +:+ credential_file +:+
                          " not setup - missing " +:+ name)) w).
Proof.
  intros H. unfold try_except, config_get. rewrite cfg_get_stored, H.
  by destruct (config w !! section).
Qed.

Lemma bind_unfold {A B} (m : M A) (f : A → M B) w :
  (m ≫= f) w =
    match m w with
    | (Ret a, w') => f a w'
    | (Exit c, w') => (Exit c, w')
    | (Raise e, w') => (Raise e, w')
    end.
Proof. reflexivity. Qed.

(** Reduce projections of updated worlds, and nothing else. *)
Ltac world_simpl :=
  cbn [credential_path config disk writable inbox utcnow trace
       log with_config with_disk with_inbox fst snd].


Lemma ret_bind {A B} (a : A) (f : A → M B) w : (mret a ≫= f) w = f a w.
Proof. reflexivity. Qed.

Lemma lift_bind {A B} (o : outcome A) (f : A → M B) w :
  (lift o ≫= f) w =
    match o with
    | Ret a => f a w
    | Exit c => (Exit c, w)
    | Raise e => (Raise e, w)
    end.
Proof. by destruct o. Qed.

(** ** The allow-list gate *)

Lemma main_missing_user_ids (opts : options) w :
  stored (config w) "Plex" "user_ids" = None →
  main opts w =
    (Exit 1,
     log (EPrint "ERROR: sync_settings.ini not setup - missing user_ids") w).
Proof.
  intros Hu. unfold main, sync_for_user.
  rewrite !bind_unfold, get_or_not_setup_missing; done.
Qed.

(** C10.  The allow-list is read before the sentinel is looked at: when
    [user_ids] is not in the settings, every invocation, the one with user
    id [-1] included, prints the missing-field error and exits with status
    1, and nothing else has happened. *)
Theorem missing_user_ids_is_fatal (env : environment) (opts : options) (c : cfg) :
  settings env = Some c →
  stored c "Plex" "user_ids" = None →
  script env opts =
    (Exit 1,
     log (EPrint "ERROR: sync_settings.ini not setup - missing user_ids")
         (boot env c))
  ∧ exit_code (script env opts).1 = 1
  ∧ trace (script env opts).2 =
      [EPrint "ERROR: sync_settings.ini not setup - missing user_ids"].
Proof.
  intros Hs Hu.
  assert (script env opts =
    (Exit 1,
     log (EPrint "ERROR: sync_settings.ini not setup - missing user_ids")
         (boot env c))) as E.
  { unfold script. rewrite Hs. by apply main_missing_user_ids. }
  by rewrite E.
Qed.

Lemma sync_for_user_found (user_id : Z) (ids : string) w :
  stored (config w) "Plex" "user_ids" = Some ids →
  sync_for_user user_id w
  = (Ret (bool_decide (pretty user_id ∈ split_on "," ids)), w).
Proof.
  intros H. unfold sync_for_user.
  by rewrite bind_unfold, (get_or_not_setup_found _ _ ids).
Qed.

Lemma gate_open (user_id : Z) (ids : string) :
  pretty user_id ∈ split_on "," ids ∨ user_id = -1 →
  negb (bool_decide (pretty user_id ∈ split_on "," ids))
  && negb (user_id =? -1) = false.
Proof.
  intros [Hin | ->].
  - by rewrite bool_decide_eq_true_2.
  - by rewrite andb_false_r.
Qed.

Lemma gate_shut (user_id : Z) (ids : string) :
  pretty user_id ∉ split_on "," ids → user_id ≠ -1 →
  negb (bool_decide (pretty user_id ∈ split_on "," ids))
  && negb (user_id =? -1) = true.
Proof.
  intros Hout Hne. rewrite bool_decide_eq_false_2 by done.
  apply Z.eqb_neq in Hne. by rewrite Hne.
Qed.

(** C4.  With an allow-list in the settings, a user id that is neither in
    it nor the sentinel [-1] makes the script print its notice and exit
    with status 0; no request has gone out, whatever the content type. *)
Theorem outsider_is_not_synced (env : environment) (opts : options)
    (c : cfg) (ids : string) :
  settings env = Some c →
  stored c "Plex" "user_ids" = Some ids →
  pretty (userId opts) ∉ split_on "," ids →
  userId opts ≠ -1 →
  script env opts =
    (Exit 0, log (EPrint "We will not sync for this user") (boot env c))
  ∧ remote_calls (trace (script env opts).2) = 0%nat
  ∧ exit_code (script env opts).1 = 0.
Proof.
  intros Hs Hu Hout Hne.
  assert (script env opts =
    (Exit 0, log (EPrint "We will not sync for this user") (boot env c))) as E.
  { unfold script. rewrite Hs. unfold main.
    rewrite bind_unfold, (sync_for_user_found _ ids) by done.
    by rewrite gate_shut. }
  by rewrite E.
Qed.

(** ** The dispatcher *)

Lemma unrecognised_eqb (ct : string) :
  ¬ recognised ct →
  String.eqb ct "trakt_authenticate" = false ∧
  String.eqb ct "trakt_refresh" = false ∧
  String.eqb ct "movie" = false ∧
  String.eqb ct "episode" = false.
Proof.
  unfold recognised. intros H.
  repeat split; apply String.eqb_neq; intros ->; apply H; set_solver.
Qed.

(** What [main] does once the gate is open and no branch matches. *)
Lemma main_unrecognised (opts : options) (ids : string) w :
  stored (config w) "Plex" "user_ids" = Some ids →
  ¬ recognised (contentType opts) →
  main opts w =
    if negb (bool_decide (pretty (userId opts) ∈ split_on "," ids))
       && negb (userId opts =? -1)
    then (Exit 0, log (EPrint "We will not sync for this user") w)
    else (Ret (), log (EPrint ("ERROR: " +:+ contentType opts +:+
                               " not found - invalid contentType")) w).
Proof.
  intros Hu (E1 & E2 & E3 & E4)%unrecognised_eqb. unfold main.
  rewrite bind_unfold, (sync_for_user_found _ ids) by done.
  destruct (negb _ && negb _); [done|]. by rewrite E1, E2, E3, E4.
Qed.

(** C9.  A content type outside the four known ones never causes a
    request or a change to the settings, in memory or on disk.  When the
    allow-list gate lets the invocation through, the dispatcher's last
    branch prints the error and the script ends without calling
    [sys.exit]: status 0. *)
Theorem unknown_content_type_falls_through (env : environment)
    (opts : options) :
  ¬ recognised (contentType opts) →
  (remote_calls (trace (script env opts).2) = 0%nat ∧
   mutations (trace (script env opts).2) = 0%nat ∧
   config (script env opts).2 = default ∅ (settings env) ∧
   disk (script env opts).2 = settings env)
  ∧ ∀ c, settings env = Some c → let_through c (userId opts) →
      script env opts =
        (Ret (), log (EPrint ("ERROR: " +:+ contentType opts +:+
                              " not found - invalid contentType"))
                     (boot env c))
      ∧ exit_code (script env opts).1 = 0.
Proof.
  intros Hct. split.
  - unfold script. destruct (settings env) as [c|] eqn:Hs; [|by simpl; rewrite Hs].
    destruct (stored c "Plex" "user_ids") as [ids|] eqn:Hu.
    + rewrite (main_unrecognised _ ids) by done.
      destruct (negb _ && negb _); by simpl; rewrite Hs.
    + rewrite main_missing_user_ids by done. by simpl; rewrite Hs.
  - intros c Hs (ids & Hu & Hin).
    assert (script env opts =
      (Ret (), log (EPrint ("ERROR: " +:+ contentType opts +:+
                            " not found - invalid contentType"))
                   (boot env c))) as E.
    { unfold script. rewrite Hs, (main_unrecognised _ ids) by done.
      by rewrite gate_open. }
    by rewrite E.
Qed.

(** ** Missing client credentials *)

Lemma Trakt_init_missing_client_id (ty : option string)
    (id season_n episode_n : json) w :
  stored (config w) "Trakt" "client_id" = None →
  Trakt_init ty id season_n episode_n w =
    (Exit 1,
     log (EPrint "ERROR: sync_settings.ini not setup - missing client_id") w).
Proof.
  intros H. unfold Trakt_init.
  by rewrite bind_unfold, get_or_not_setup_missing.
Qed.

Lemma recognised_eqb (ct : string) :
  recognised ct ↔
  String.eqb ct "trakt_authenticate" || String.eqb ct "trakt_refresh"
  || String.eqb ct "movie" || String.eqb ct "episode" = true.
Proof.
  unfold recognised.
  rewrite !orb_true_iff, !String.eqb_eq, !elem_of_cons, elem_of_nil. tauto.
Qed.

Lemma main_missing_client_id (opts : options) (ids : string) w :
  stored (config w) "Plex" "user_ids" = Some ids →
  stored (config w) "Trakt" "client_id" = None →
  main opts w =
    if negb (bool_decide (pretty (userId opts) ∈ split_on "," ids))
       && negb (userId opts =? -1)
    then (Exit 0, log (EPrint "We will not sync for this user") w)
    else if String.eqb (contentType opts) "trakt_authenticate"
            || String.eqb (contentType opts) "trakt_refresh"
            || String.eqb (contentType opts) "movie"
            || String.eqb (contentType opts) "episode"
    then (Exit 1,
          log (EPrint "ERROR: sync_settings.ini not setup - missing client_id") w)
    else (Ret (), log (EPrint ("ERROR: " +:+ contentType opts +:+
                               " not found - invalid contentType")) w).
Proof.
  intros Hu Hc. unfold main.
  rewrite bind_unfold, (sync_for_user_found _ ids) by done.
  destruct (negb _ && negb _); [done|].
  repeat (destruct (String.eqb (contentType opts) _);
          [by rewrite bind_unfold, Trakt_init_missing_client_id|]).
  done.
Qed.

(** C5.  Without [client_id] in the settings no request is ever sent.
    Each of the four operations builds its [Trakt] object first, and the
    constructor stops there: once the gate has let the invocation through,
    the script prints the error naming [client_id] and exits with status 1,
    with nothing else done. *)
Theorem missing_client_id_is_fatal (env : environment) (opts : options)
    (c : cfg) :
  settings env = Some c →
  stored c "Trakt" "client_id" = None →
  remote_calls (trace (script env opts).2) = 0%nat
  ∧ (let_through c (userId opts) → recognised (contentType opts) →
     script env opts =
       (Exit 1,
        log (EPrint "ERROR: sync_settings.ini not setup - missing client_id")
            (boot env c))
     ∧ exit_code (script env opts).1 = 1
     ∧ (script env opts).2.(disk) = settings env).
Proof.
  intros Hs Hc. unfold script. rewrite Hs. split.
  - destruct (stored c "Plex" "user_ids") as [ids|] eqn:Hu.
    + rewrite (main_missing_client_id _ ids) by done.
      by repeat case_match.
    + by rewrite main_missing_user_ids.
  - intros (ids & Hu & Hin) Hct%recognised_eqb.
    rewrite (main_missing_client_id _ ids) by done.
    by rewrite gate_open, Hct.
Qed.

(** ** Device-token polling *)

Lemma send_next (req : request) (r : response) (rest : list response) w :
  inbox w = r :: rest →
  send req w = (Ret r, log (ERemote req) (with_inbox rest w)).
Proof. intros H. unfold send. by rewrite H. Qed.

(** The first steps of a poll: the request goes out and the answer's
    status decides.  The retry never starts: it passes [self] twice. *)
Lemma poll_access_token_answered (depth : nat) (self : Trakt)
    (hs : list (string * string)) (device_code : json)
    (r : response) (rest : list response) w :
  inbox w = r :: rest →
  poll_access_token depth self hs device_code w =
    let w1 := log (ERemote (poll_request self hs device_code))
                  (with_inbox rest w) in
    if status_code r =? 400 then
      (Raise TypeError, log (EInput pending_prompt) w1)
    else if negb (status_code r =? 200) then
      (Exit 1, log (EPrint "Something went wrong, please try again.") w1)
    else
      (response ← r_json r;
       access ← lift (getitem response "access_token");
       config_set "Trakt" "access_token" access;;
       refresh ← lift (getitem response "refresh_token");
       config_set "Trakt" "refresh_token" refresh;;
       write_settings;;
       print "Succesfully configured your Trakt.tv sync!") w1.
Proof.
  intros Hin.
  destruct depth; simpl; unfold requests_post;
    rewrite bind_unfold, (send_next _ r rest) by done;
    fold (poll_request self hs device_code);
    destruct (status_code r =? 400); try done;
    destruct (status_code r =? 200); done.
Qed.

(** C6.  An answer to the token poll whose status is neither 400 nor 200
    ends the process: the error is printed, the exit status is 1, and no
    token has been set or saved. *)
Theorem poll_failure_is_fatal (depth : nat) (self : Trakt)
    (hs : list (string * string)) (device_code : json)
    (r : response) (rest : list response) w :
  inbox w = r :: rest →
  status_code r ≠ 400 →
  status_code r ≠ 200 →
  let result := poll_access_token depth self hs device_code w in
  result.1 = Exit 1
  ∧ exit_code result.1 = 1
  ∧ trace result.2 =
      trace w ++ [ERemote (poll_request self hs device_code);
                  EPrint "Something went wrong, please try again."]
  ∧ config result.2 = config w
  ∧ disk result.2 = disk w.
Proof.
  intros Hin H400%Z.eqb_neq H200%Z.eqb_neq result. subst result.
  rewrite (poll_access_token_answered _ _ _ _ r rest) by done.
  simpl. rewrite H400, H200. simpl. by rewrite <- app_assoc.
Qed.

(** C1, at the input the claim describes.  The device code is issued, the
    first poll is answered 400 and the second answer would be a 200
    carrying both tokens.  The script prompts the operator and then raises
    [TypeError] at the retry: the success answer is never read, nothing is
    set and nothing is saved. *)
Theorem pending_then_success_raises (self : Trakt)
    (device_code user_code verification_url : json)
    (pending_body : option json) (a r : string) w :
  let device :=
    {| status_code := 200;
       body := Some (JObj [("device_code", device_code);
                           ("user_code", user_code);
                           ("verification_url", verification_url)]) |} in
  let pending := {| status_code := 400; body := pending_body |} in
  let success :=
    {| status_code := 200;
       body := Some (JObj [("access_token", JStr a);
                           ("refresh_token", JStr r)]) |} in
  let result := authenticate self (with_inbox [device; pending; success] w) in
  result.1 = Raise TypeError
  ∧ exit_code result.1 = 1
  ∧ inbox result.2 = [success]
  ∧ saves (trace result.2) = saves (trace w)
  ∧ config result.2 = config w
  ∧ disk result.2 = disk w.
Proof.
  intros device pending success result. subst result.
  unfold authenticate, generate_device_code, requests_post.
  rewrite !bind_unfold, (send_next _ device [pending; success]) by done.
  simpl. unfold bound_call. simpl.
  rewrite (poll_access_token_answered _ _ _ _ pending [success]) by done.
  simpl. unfold saves. rewrite !List.filter_app. simpl.
  by rewrite !app_nil_r.
Qed.

(** ** Refreshing the tokens *)




Lemma with_tokens_access (a r : string) (c : cfg) :
  is_Some (c !! "Trakt") →
  stored (with_tokens a r c) "Trakt" "access_token" = Some a.
Proof.
  intros [opts H]. unfold with_tokens, stored. rewrite H, lookup_insert_eq.
  simpl. by rewrite lookup_insert_ne, lookup_insert_eq.
Qed.

Lemma with_tokens_refresh (a r : string) (c : cfg) :
  is_Some (c !! "Trakt") →
  stored (with_tokens a r c) "Trakt" "refresh_token" = Some r.
Proof.
  intros [opts H]. unfold with_tokens, stored. rewrite H, lookup_insert_eq.
  simpl. by rewrite lookup_insert_eq.
Qed.




(** ** The history payload *)

Lemma id_of_lookup (v : json) (k : string) w :
  id_of v k w = (lookup_id v k, w).
Proof.
  unfold id_of, lookup_id. rewrite lift_bind.
  by destruct (getitem v "ids").
Qed.

Lemma id_of_bind {B} (v : json) (k : string) (x : json) (f : json → M B) w :
  lookup_id v k = Ret x → (id_of v k ≫= f) w = f x w.
Proof. intros H. by rewrite bind_unfold, id_of_lookup, H. Qed.

Lemma movie_payload_ok (watched_at : string) (movie title yr : json)
    (trakt slug imdb tmdb : json) w :
  getitem movie "title" = Ret title →
  getitem movie "year" = Ret yr →
  lookup_id movie "trakt" = Ret trakt →
  lookup_id movie "slug" = Ret slug →
  lookup_id movie "imdb" = Ret imdb →
  lookup_id movie "tmdb" = Ret tmdb →
  movie_payload watched_at movie w =
    (Ret (movie_entry watched_at title yr trakt slug imdb tmdb), w).
Proof.
  intros Ht Hy H1 H2 H3 H4. unfold movie_payload.
  rewrite lift_bind, Ht, lift_bind, Hy.
  by rewrite (id_of_bind _ _ trakt), (id_of_bind _ _ slug),
    (id_of_bind _ _ imdb), (id_of_bind _ _ tmdb).
Qed.

Lemma episode_payload_ok (watched_at : string) (ep : json)
    (trakt tvdb imdb tmdb : json) w :
  lookup_id ep "trakt" = Ret trakt →
  lookup_id ep "tvdb" = Ret tvdb →
  lookup_id ep "imdb" = Ret imdb →
  lookup_id ep "tmdb" = Ret tmdb →
  episode_payload watched_at ep w =
    (Ret (episode_entry watched_at trakt tvdb imdb tmdb), w).
Proof.
  intros H1 H2 H3 H4. unfold episode_payload.
  by rewrite (id_of_bind _ _ trakt), (id_of_bind _ _ tvdb),
    (id_of_bind _ _ imdb), (id_of_bind _ _ tmdb).
Qed.

Lemma get_movie_ok (self : Trakt) (id : json) (found : response)
    (rest : list response) (j first movie : json) w :
  imdb_id self = Some id →
  inbox w = found :: rest →
  body found = Some j →
  getitem0 j = Ret first →
  getitem first "movie" = Ret movie →
  get_movie self w =
    (Ret movie,
     log (ERemote (search_request self
            ("https://api.trakt.tv/search/imdb/" +:+ py_str id +:+ "?type=movie")))
         (with_inbox rest w)).
Proof.
  intros Hid Hin Hb H0 Hm. unfold get_movie, attr, requests_get, r_json.
  rewrite Hid, ret_bind, bind_unfold, (send_next _ found rest) by done.
  by rewrite Hb, ret_bind, lift_bind, H0, Hm.
Qed.

Lemma get_show_ok (self : Trakt) (id : json) (found : response)
    (rest : list response) (j first show : json) w :
  tvdb_id self = Some id →
  inbox w = found :: rest →
  body found = Some j →
  getitem0 j = Ret first →
  getitem first "show" = Ret show →
  get_show self w =
    (Ret show,
     log (ERemote (search_request self
            ("https://api.trakt.tv/search/tvdb/" +:+ py_str id +:+ "?type=show")))
         (with_inbox rest w)).
Proof.
  intros Hid Hin Hb H0 Hm. unfold get_show, attr, requests_get, r_json.
  rewrite Hid, ret_bind, bind_unfold, (send_next _ found rest) by done.
  by rewrite Hb, ret_bind, lift_bind, H0, Hm.
Qed.

Lemma get_episode_ok (self : Trakt) (show slug s e : json)
    (found : response) (rest : list response) (ep : json) w :
  lookup_id show "slug" = Ret slug →
  season_num self = Some s →
  episode_num self = Some e →
  inbox w = found :: rest →
  body found = Some ep →
  get_episode self show w =
    (Ret ep,
     log (ERemote (search_request self
            ("https://api.trakt.tv/shows/" +:+ py_str slug +:+
             "/seasons/" +:+ py_str s +:+ "/episodes/" +:+ py_str e)))
         (with_inbox rest w)).
Proof.
  intros Hslug Hs He Hin Hb. unfold get_episode, attr, requests_get, r_json.
  unfold lookup_id in Hslug. rewrite lift_bind.
  destruct (getitem show "ids") as [ids| |]; try done.
  rewrite lift_bind, Hslug, Hs, He, !ret_bind.
  by rewrite bind_unfold, (send_next _ found rest), Hb by done.
Qed.

Lemma submit_history (self : Trakt) (tok : string) (entry : json) w :
  let result :=
    (requests_post "https://api.trakt.tv/sync/history" entry
       [("Content-Type", "application/json");
        ("Authorization", "Bearer " +:+ tok);
        ("trakt-api-version", "2");
        ("trakt-api-key", client_id self)];; mret ()) w in
  trace result.2 = trace w ++ [ERemote (history_request self tok entry)]
  ∧ (inbox w ≠ [] → result.1 = Ret ()).
Proof.
  unfold requests_post. fold (history_request self tok entry).
  rewrite bind_unfold. unfold send. by destruct (inbox w).
Qed.

Lemma sync_history_movie (self : Trakt) (tok : string) (id : json)
    (found : response) (rest : list response)
    (j first movie title yr trakt slug imdb tmdb : json) w :
  type self = Some "movie" →
  imdb_id self = Some id →
  stored (config w) "Trakt" "access_token" = Some tok →
  inbox w = found :: rest →
  body found = Some j →
  getitem0 j = Ret first →
  getitem first "movie" = Ret movie →
  getitem movie "title" = Ret title →
  getitem movie "year" = Ret yr →
  lookup_id movie "trakt" = Ret trakt →
  lookup_id movie "slug" = Ret slug →
  lookup_id movie "imdb" = Ret imdb →
  lookup_id movie "tmdb" = Ret tmdb →
  trace (sync_history self w).2 =
    trace w ++
    [ERemote (search_request self
       ("https://api.trakt.tv/search/imdb/" +:+ py_str id +:+ "?type=movie"));
     ERemote (history_request self tok
       (movie_entry (strftime_watched (utcnow w))
          title yr trakt slug imdb tmdb))]
  ∧ (rest ≠ [] → (sync_history self w).1 = Ret ()).
Proof.
  intros Hty Hid Htok Hin Hb H0 Hm Ht Hy H1 H2 H3 H4.
  unfold sync_history, get_access_token, now, attr.
  rewrite bind_unfold, (get_or_not_setup_found _ _ tok) by done.
  rewrite bind_unfold, Hty, ret_bind. cbn [String.eqb Ascii.eqb Bool.eqb].
  rewrite bind_unfold, bind_unfold,
    (get_movie_ok _ id found rest j first movie) by done.
  rewrite (movie_payload_ok _ _ title yr trakt slug imdb tmdb) by done.
  match goal with
  | |- context [(requests_post _ ?e _;; _) ?w'] =>
      destruct (submit_history self tok e w') as [Htr Hret]
  end.
  rewrite Htr. split; [world_simpl; by rewrite <- app_assoc|done].
Qed.

Lemma sync_history_episode (self : Trakt) (tok : string) (id s e : json)
    (found_show found_ep : response) (rest : list response)
    (j first show slug ep trakt tvdb imdb tmdb : json) w :
  type self = Some "episode" →
  tvdb_id self = Some id →
  season_num self = Some s →
  episode_num self = Some e →
  stored (config w) "Trakt" "access_token" = Some tok →
  inbox w = found_show :: found_ep :: rest →
  body found_show = Some j →
  getitem0 j = Ret first →
  getitem first "show" = Ret show →
  lookup_id show "slug" = Ret slug →
  body found_ep = Some ep →
  lookup_id ep "trakt" = Ret trakt →
  lookup_id ep "tvdb" = Ret tvdb →
  lookup_id ep "imdb" = Ret imdb →
  lookup_id ep "tmdb" = Ret tmdb →
  trace (sync_history self w).2 =
    trace w ++
    [ERemote (search_request self
       ("https://api.trakt.tv/search/tvdb/" +:+ py_str id +:+ "?type=show"));
     ERemote (search_request self
       ("https://api.trakt.tv/shows/" +:+ py_str slug +:+
        "/seasons/" +:+ py_str s +:+ "/episodes/" +:+ py_str e));
     ERemote (history_request self tok
       (episode_entry (strftime_watched (utcnow w)) trakt tvdb imdb tmdb))]
  ∧ (rest ≠ [] → (sync_history self w).1 = Ret ()).
Proof.
  intros Hty Hid Hs He Htok Hin Hb H0 Hshow Hslug Hep H1 H2 H3 H4.
  unfold sync_history, get_access_token, now, attr.
  rewrite bind_unfold, (get_or_not_setup_found _ _ tok) by done.
  rewrite bind_unfold, Hty, ret_bind. cbn [String.eqb Ascii.eqb Bool.eqb].
  rewrite bind_unfold, bind_unfold,
    (get_show_ok _ id found_show (found_ep :: rest) j first show) by done.
  rewrite bind_unfold,
    (get_episode_ok _ _ slug s e found_ep rest ep) by done.
  rewrite (episode_payload_ok _ _ trakt tvdb imdb tmdb) by done.
  match goal with
  | |- context [(requests_post _ ?e _;; _) ?w'] =>
      destruct (submit_history self tok e w') as [Htr Hret]
  end.
  rewrite Htr. split; [world_simpl; by rewrite <- !app_assoc|done].
Qed.

(** ** Operations that leave the settings alone *)

Section Quiet.

Variable clock : datetime.
Variable P : event → Prop.
Hypothesis P_print : ∀ s, P (EPrint s).
Hypothesis P_input : ∀ s, P (EInput s).
Hypothesis P_other : ∀ req, url req ≠ history_url → P (ERemote req).
Hypothesis P_movie : ∀ self tok title yr trakt slug imdb tmdb,
  P (ERemote (history_request self tok
       (movie_entry (strftime_watched clock) title yr trakt slug imdb tmdb))).
Hypothesis P_episode : ∀ self tok trakt tvdb imdb tmdb,
  P (ERemote (history_request self tok
       (episode_entry (strftime_watched clock) trakt tvdb imdb tmdb))).

Lemma quiet_still {A} (o : outcome A) : quiet clock P (λ w, (o, w)).
Proof.
  intros w Hc. split_and!; try done. exists []. by rewrite app_nil_r.
Qed.

Lemma quiet_ret {A} (a : A) : quiet clock P (mret a).
Proof. apply quiet_still. Qed.

Lemma quiet_raise {A} (e : exn) : quiet clock P (@raise A e).
Proof. apply quiet_still. Qed.

Lemma quiet_exit {A} (code : Z) : quiet clock P (@sys_exit A code).
Proof. apply quiet_still. Qed.

Lemma quiet_lift {A} (o : outcome A) : quiet clock P (lift o).
Proof. apply quiet_still. Qed.

Lemma quiet_bind {A B} (m : M A) (f : A → M B) :
  quiet clock P m → (∀ a, quiet clock P (f a)) → quiet clock P (m ≫= f).
Proof.
  intros Hm Hf w Hc. rewrite bind_unfold.
  destruct (Hm w Hc) as (Hcfg & Hdisk & Hclock & evs & Htr & Hall).
  destruct (m w) as [[a|code|e] w1]; simpl in *;
    [|split_and!; eauto..].
  destruct (Hf a w1 Hclock) as (Hcfg' & Hdisk' & Hclock' & evs' & Htr' & Hall').
  split_and!; [congruence..|].
  exists (evs ++ evs'). rewrite Htr', Htr, <- app_assoc.
  split; [done|by apply Forall_app].
Qed.

Lemma quiet_emit (e : event) : P e → quiet clock P (emit e).
Proof.
  intros He w Hc. split_and!; try done. exists [e]. by split; [|constructor].
Qed.

Lemma quiet_print (s : string) : quiet clock P (print s).
Proof. by apply quiet_emit. Qed.

Lemma quiet_input (s : string) : quiet clock P (input s).
Proof. apply quiet_bind; [by apply quiet_emit|intros; apply quiet_ret]. Qed.

Lemma quiet_send (req : request) : P (ERemote req) → quiet clock P (send req).
Proof.
  intros Hreq w Hc. unfold send.
  destruct (inbox w); (split_and!; try done; exists [ERemote req];
                       by split; [|constructor]).
Qed.

Lemma quiet_config_get (section name : string) :
  quiet clock P (config_get section name).
Proof.
  intros w Hc. unfold config_get.
  destruct (cfg_get (config w) section name); by apply quiet_still.
Qed.

Lemma quiet_try_except {A} (body handler : M A) (caught : exn → bool) :
  quiet clock P body → quiet clock P handler → quiet clock P (try_except body caught handler).
Proof.
  intros Hb Hh w Hc. unfold try_except.
  destruct (Hb w Hc) as (Hcfg & Hdisk & Hclock & evs & Htr & Hall).
  destruct (body w) as [[a|code|e] w1]; simpl in *;
    [split_and!; eauto..|].
  destruct (caught e); [|split_and!; eauto].
  destruct (Hh w1 Hclock) as (Hcfg' & Hdisk' & Hclock' & evs' & Htr' & Hall').
  split_and!; [congruence..|].
  exists (evs ++ evs'). rewrite Htr', Htr, <- app_assoc.
  split; [done|by apply Forall_app].
Qed.

Lemma quiet_now {B} (f : datetime → M B) :
  quiet clock P (f clock) → quiet clock P (now ≫= f).
Proof. intros Hf w Hc. rewrite bind_unfold. unfold now. rewrite Hc. by apply Hf. Qed.

Lemma quiet_attr {A} (a : option A) : quiet clock P (attr a).
Proof. destruct a; [apply quiet_ret|apply quiet_raise]. Qed.

Lemma quiet_r_json (r : response) : quiet clock P (r_json r).
Proof. unfold r_json. destruct (body r); [apply quiet_ret|apply quiet_raise]. Qed.

Lemma quiet_not_setup {A} (field : string) : quiet clock P (@not_setup A field).
Proof. apply quiet_bind; [apply quiet_print|intros; apply quiet_exit]. Qed.

Lemma quiet_lookup (section name : string) :
  quiet clock P (try_except (config_get section name) lookup_errors (not_setup name)).
Proof.
  apply quiet_try_except; [apply quiet_config_get|apply quiet_not_setup].
Qed.

Lemma returns_bind {A B} (Q : B → Prop) (m : M A) (f : A → M B) :
  (∀ a, returns Q (f a)) → returns Q (m ≫= f).
Proof.
  intros Hf w b. rewrite bind_unfold.
  destruct (m w) as [[a|code|e] w1]; try done. apply Hf.
Qed.

Lemma returns_lift_bind {A B} (Q : B → Prop) (o : outcome A) (f : A → M B) :
  (∀ a, o = Ret a → returns Q (f a)) → returns Q (lift o ≫= f).
Proof.
  intros Hf w b. rewrite lift_bind. destruct o as [a|code|e]; try done.
  by apply Hf.
Qed.

Lemma returns_ret {A} (Q : A → Prop) (a : A) : Q a → returns Q (mret a).
Proof. intros Ha w b [= <-]. done. Qed.

Lemma returns_raise {A} (Q : A → Prop) (e : exn) : returns Q (raise e).
Proof. by intros w b. Qed.

Lemma quiet_bind_post {A B} (Q : A → Prop) (m : M A) (f : A → M B) :
  quiet clock P m → returns Q m → (∀ a, Q a → quiet clock P (f a)) → quiet clock P (m ≫= f).
Proof.
  intros Hm HQ Hf w Hc. rewrite bind_unfold.
  destruct (Hm w Hc) as (Hcfg & Hdisk & Hclock & evs & Htr & Hall).
  pose proof (HQ w) as HQw.
  destruct (m w) as [[a|code|e] w1]; simpl in *;
    [|split_and!; eauto..].
  destruct (Hf a (HQw a eq_refl) w1 Hclock)
    as (Hcfg' & Hdisk' & Hclock' & evs' & Htr' & Hall').
  split_and!; [congruence..|].
  exists (evs ++ evs'). rewrite Htr', Htr, <- app_assoc.
  split; [done|by apply Forall_app].
Qed.

Lemma quiet_get (self : Trakt) (u : string) :
  u ≠ history_url → quiet clock P (requests_get u (api_headers self)).
Proof. intros Hu. by apply quiet_send, P_other. Qed.

Lemma quiet_post_other (u : string) (p : json) (hs : list (string * string)) :
  u ≠ history_url → quiet clock P (requests_post u p hs).
Proof. intros Hu. by apply quiet_send, P_other. Qed.

Ltac quiet_leaf :=
  first
    [ apply quiet_ret | apply quiet_raise | apply quiet_exit
    | apply quiet_lift | apply quiet_print | apply quiet_input
    | apply quiet_attr | apply quiet_r_json | apply quiet_lookup
    | apply quiet_not_setup | apply quiet_config_get
    | by apply quiet_get | by apply quiet_post_other ].

Ltac quiet_step :=
  lazymatch goal with
  | |- quiet clock P (now ≫= _) => apply quiet_now
  | |- quiet clock P (_ ≫= _) => apply quiet_bind; [|intros ?]
  | |- quiet clock P _ => quiet_leaf
  end.

Lemma quiet_id_of (v : json) (k : string) : quiet clock P (id_of v k).
Proof. unfold id_of. repeat quiet_step. Qed.

Lemma quiet_generate_device_code (self : Trakt) (hs : list (string * string)) :
  quiet clock P (generate_device_code self hs).
Proof. unfold generate_device_code. repeat quiet_step. Qed.

Lemma quiet_get_movie (self : Trakt) : quiet clock P (get_movie self).
Proof. unfold get_movie. repeat quiet_step. Qed.

Lemma quiet_get_show (self : Trakt) : quiet clock P (get_show self).
Proof. unfold get_show. repeat quiet_step. Qed.

Lemma quiet_get_episode (self : Trakt) (show : json) :
  quiet clock P (get_episode self show).
Proof. unfold get_episode. repeat quiet_step. Qed.

Lemma quiet_movie_payload (wa : string) (movie : json) :
  quiet clock P (movie_payload wa movie).
Proof.
  unfold movie_payload. repeat first [apply quiet_id_of | quiet_step].
Qed.

Lemma quiet_episode_payload (wa : string) (ep : json) :
  quiet clock P (episode_payload wa ep).
Proof.
  unfold episode_payload. repeat first [apply quiet_id_of | quiet_step].
Qed.

Lemma movie_payload_returns (wa : string) (movie : json) :
  returns (λ p, ∃ title yr trakt slug imdb tmdb,
             p = movie_entry wa title yr trakt slug imdb tmdb)
          (movie_payload wa movie).
Proof.
  unfold movie_payload.
  do 2 (apply returns_lift_bind; intros ? _).
  do 4 (apply returns_bind; intros ?).
  apply returns_ret. unfold movie_entry. eauto 10.
Qed.

Lemma episode_payload_returns (wa : string) (ep : json) :
  returns (λ p, ∃ trakt tvdb imdb tmdb,
             p = episode_entry wa trakt tvdb imdb tmdb)
          (episode_payload wa ep).
Proof.
  unfold episode_payload.
  do 4 (apply returns_bind; intros ?).
  apply returns_ret. unfold episode_entry. eauto 10.
Qed.

Lemma quiet_sync_history (self : Trakt) : quiet clock P (sync_history self).
Proof.
  unfold sync_history, get_access_token.
  apply quiet_bind; [apply quiet_lookup|intros tok].
  apply quiet_now.
  apply quiet_bind; [apply quiet_attr|intros ty].
  apply (quiet_bind_post (λ p,
    (∃ title yr trakt slug imdb tmdb,
       p = movie_entry (strftime_watched clock) title yr trakt slug imdb tmdb)
    ∨ (∃ trakt tvdb imdb tmdb,
       p = episode_entry (strftime_watched clock) trakt tvdb imdb tmdb))).
  - destruct (String.eqb ty "movie").
    { apply quiet_bind; [apply quiet_get_movie|intros; apply quiet_movie_payload]. }
    destruct (String.eqb ty "episode"); [|apply quiet_raise].
    apply quiet_bind; [apply quiet_get_show|intros show].
    apply quiet_bind;
      [apply quiet_get_episode|intros; apply quiet_episode_payload].
  - destruct (String.eqb ty "movie").
    { apply returns_bind. intros movie w p Hp. left.
      by apply (movie_payload_returns _ movie w). }
    destruct (String.eqb ty "episode"); [|apply returns_raise].
    do 2 (apply returns_bind; intros ?). intros w p Hp. right.
    by apply (episode_payload_returns _ a0 w).
  - intros p Hp. apply quiet_bind; [|intros; apply quiet_ret].
    apply quiet_send.
    destruct Hp as [(t & y & a & b & c & d & ->)|(a & b & c & d & ->)].
    + apply (P_movie self).
    + apply (P_episode self).
Qed.

Lemma quiet_sync_for_user (user_id : Z) : quiet clock P (sync_for_user user_id).
Proof. unfold sync_for_user. repeat quiet_step. Qed.

Lemma quiet_Trakt_init (ty : option string) (id season_n episode_n : json) :
  quiet clock P (Trakt_init ty id season_n episode_n).
Proof. unfold Trakt_init. repeat quiet_step. Qed.

End Quiet.

(** ** The timestamp *)

Lemma read_digits_app (k : nat) (s rest s' : string) (acc v : Z) :
  read_digits k s acc = Some (v, s') →
  read_digits k (s +:+ rest) acc = Some (v, s' +:+ rest).
Proof.
  revert s acc. induction k as [|k IH]; intros s acc; simpl.
  - by intros [= -> ->].
  - destruct s as [|c s]; [done|]. simpl.
    destruct (digit_value c); [apply IH|done].
Qed.

Lemma reads_back_range (width : nat) (lo len : Z) :
  forallb (reads_back width) (seqZ lo len) = true →
  ∀ n rest, lo ≤ n < lo + len →
    read_digits width (padded width n +:+ rest) 0 = Some (n, rest)
    ∧ String.length (padded width n) = width.
Proof.
  intros Hall n rest Hn. rewrite forallb_forall in Hall.
  assert (reads_back width n = true) as Hrb.
  { apply Hall, list_elem_of_In, elem_of_seqZ. lia. }
  unfold reads_back in Hrb.
  destruct (read_digits width (padded width n) 0) as [[v [|]]|] eqn:E;
    try done.
  apply andb_true_iff in Hrb as [->%Z.eqb_eq ->%Nat.eqb_eq]. split; [|done].
  by rewrite (read_digits_app _ _ rest EmptyString _ n).
Qed.

Lemma two_digits (n : Z) (rest : string) :
  0 ≤ n < 100 →
  read_digits 2 (padded 2 n +:+ rest) 0 = Some (n, rest)
  ∧ String.length (padded 2 n) = 2%nat.
Proof.
  intros Hn. apply (reads_back_range 2 0 100); [by vm_compute|lia].
Qed.

Lemma four_digits (n : Z) (rest : string) :
  1000 ≤ n < 10000 →
  read_digits 4 (padded 4 n +:+ rest) 0 = Some (n, rest)
  ∧ String.length (padded 4 n) = 4%nat.
Proof.
  intros Hn. apply (reads_back_range 4 1000 9000); [by vm_compute|lia].
Qed.

Lemma expect_app (lit rest : string) : expect lit (lit +:+ rest) = Some rest.
Proof.
  induction lit as [|c lit IH]; simpl; [done|]. by rewrite Ascii.eqb_refl.
Qed.

Lemma length_append (s t : string) :
  String.length (s +:+ t) = (String.length s + String.length t)%nat.
Proof. induction s as [|c s IH]; simpl; [done|by rewrite IH]. Qed.

Lemma strftime_watched_parses (dt : datetime) :
  valid_datetime dt →
  parse_watched (strftime_watched dt) = Some (whole_second dt)
  ∧ String.length (strftime_watched dt) = 24%nat.
Proof.
  intros (Hy & Hmo & Hd & Hh & Hmi & Hs & _).
  unfold strftime_watched. split.
  - unfold parse_watched.
    rewrite (proj1 (four_digits (year dt) _ ltac:(lia))).
    cbn [mbind option_bind]. rewrite expect_app. cbn [mbind option_bind].
    rewrite (proj1 (two_digits (month dt) _ ltac:(lia))).
    cbn [mbind option_bind]. rewrite expect_app. cbn [mbind option_bind].
    rewrite (proj1 (two_digits (day dt) _ ltac:(lia))).
    cbn [mbind option_bind]. rewrite expect_app. cbn [mbind option_bind].
    rewrite (proj1 (two_digits (hour dt) _ ltac:(lia))).
    cbn [mbind option_bind]. rewrite expect_app. cbn [mbind option_bind].
    rewrite (proj1 (two_digits (minute dt) _ ltac:(lia))).
    cbn [mbind option_bind]. rewrite expect_app. cbn [mbind option_bind].
    rewrite (proj1 (two_digits (second dt) _ ltac:(lia))).
    reflexivity.
  - rewrite !length_append.
    rewrite (proj2 (four_digits (year dt) EmptyString ltac:(lia))).
    rewrite (proj2 (two_digits (month dt) EmptyString ltac:(lia))).
    rewrite (proj2 (two_digits (day dt) EmptyString ltac:(lia))).
    rewrite (proj2 (two_digits (hour dt) EmptyString ltac:(lia))).
    rewrite (proj2 (two_digits (minute dt) EmptyString ltac:(lia))).
    rewrite (proj2 (two_digits (second dt) EmptyString ltac:(lia))).
    done.
Qed.

Lemma sync_history_stamps (self : Trakt) w :
  ∃ evs, trace (sync_history self w).2 = trace w ++ evs
         ∧ Forall (stamped (utcnow w)) evs.
Proof.
  eapply (quiet_sync_history (utcnow w) (stamped (utcnow w))); try done.
  - intros req Hne. simpl. done.
  - intros ? tok title yr trakt slug imdb tmdb _. unfold movie_entry. eauto.
  - intros ? tok trakt tvdb imdb tmdb _. unfold episode_entry. eauto.
Qed.

(** C8.  Every history request [sync_history] sends carries, as the
    [watched_at] of its single entry, the clock reading rendered as
    [YYYY-MM-DDTHH:MM:SS.000Z]: 24 characters that read back as the clock's
    date and time to the second, with the sub-second part fixed at zero. *)
Theorem watched_at_is_utc_iso8601 (self : Trakt) w :
  valid_datetime (utcnow w) →
  (∃ evs, trace (sync_history self w).2 = trace w ++ evs
          ∧ Forall (stamped (utcnow w)) evs)
  ∧ parse_watched (strftime_watched (utcnow w)) = Some (whole_second (utcnow w))
  ∧ String.length (strftime_watched (utcnow w)) = 24%nat.
Proof.
  intros Hv. split; [apply sync_history_stamps|].
  by apply strftime_watched_parses.
Qed.

(** C7.  The payload [sync_history] submits has one of two shapes, by the
    kind of the item.  For a movie: one entry under [movies], holding
    [watched_at], the looked-up [title] and [year], and [ids] with exactly
    [trakt], [slug], [imdb], [tmdb].  For an episode: one entry under
    [episodes], holding [watched_at] and [ids] with exactly [trakt],
    [tvdb], [imdb], [tmdb], and neither title nor year.  Every id is the
    value the lookup returned under that name. *)
Theorem sync_history_payload_shape (self : Trakt) (tok : string) w :
  stored (config w) "Trakt" "access_token" = Some tok →
  (∀ id found rest j first movie title yr trakt slug imdb tmdb,
     type self = Some "movie" →
     imdb_id self = Some id →
     inbox w = found :: rest →
     body found = Some j →
     getitem0 j = Ret first →
     getitem first "movie" = Ret movie →
     getitem movie "title" = Ret title →
     getitem movie "year" = Ret yr →
     lookup_id movie "trakt" = Ret trakt →
     lookup_id movie "slug" = Ret slug →
     lookup_id movie "imdb" = Ret imdb →
     lookup_id movie "tmdb" = Ret tmdb →
     last (trace (sync_history self w).2) =
       Some (ERemote (history_request self tok
         (JObj [("movies", JArr [JObj [
            ("watched_at", JStr (strftime_watched (utcnow w)));
            ("title", title);
            ("year", yr);
            ("ids", JObj [("trakt", trakt); ("slug", slug);
                          ("imdb", imdb); ("tmdb", tmdb)])]])])))
     ∧ remote_calls (trace (sync_history self w).2)
       = (remote_calls (trace w) + 2)%nat)
  ∧
  (∀ id s e found_show found_ep rest j first show slug ep
     trakt tvdb imdb tmdb,
     type self = Some "episode" →
     tvdb_id self = Some id →
     season_num self = Some s →
     episode_num self = Some e →
     inbox w = found_show :: found_ep :: rest →
     body found_show = Some j →
     getitem0 j = Ret first →
     getitem first "show" = Ret show →
     lookup_id show "slug" = Ret slug →
     body found_ep = Some ep →
     lookup_id ep "trakt" = Ret trakt →
     lookup_id ep "tvdb" = Ret tvdb →
     lookup_id ep "imdb" = Ret imdb →
     lookup_id ep "tmdb" = Ret tmdb →
     last (trace (sync_history self w).2) =
       Some (ERemote (history_request self tok
         (JObj [("episodes", JArr [JObj [
            ("watched_at", JStr (strftime_watched (utcnow w)));
            ("ids", JObj [("trakt", trakt); ("tvdb", tvdb);
                          ("imdb", imdb); ("tmdb", tmdb)])]])])))
     ∧ remote_calls (trace (sync_history self w).2)
       = (remote_calls (trace w) + 3)%nat).
Proof.
  intros Htok. split.
  - intros id found rest j first movie title yr trakt slug imdb tmdb
      Hty Hid Hin Hb H0 Hm Ht Hy H1 H2 H3 H4.
    destruct (sync_history_movie self tok id found rest j first movie
                title yr trakt slug imdb tmdb w) as [Htr _]; try done.
    rewrite Htr. split.
    + by rewrite (last_app _ [_; _]).
    + unfold remote_calls. by rewrite List.filter_app, length_app.
  - intros id s e found_show found_ep rest j first show slug ep
      trakt tvdb imdb tmdb Hty Hid Hs He Hin Hb H0 Hshow Hslug Hep
      H1 H2 H3 H4.
    destruct (sync_history_episode self tok id s e found_show found_ep rest
                j first show slug ep trakt tvdb imdb tmdb w) as [Htr _];
      try done.
    rewrite Htr. split.
    + by rewrite (last_app _ [_; _; _]).
    + unfold remote_calls. by rewrite List.filter_app, length_app.
Qed.

(** ** Tokens are written together and saved before use *)

(** The ledger does refuse: a save of one token alone, a request sent
    between the two sets, a snapshot that does not hold the pair. *)
Example ledger_refuses_half_save (c : cfg) :
  ledger_run Clean [ESet "Trakt" "access_token" "a"; ESave c] = None.
Proof. reflexivity. Qed.

Example ledger_refuses_request_before_save (req : request) (c : cfg) :
  ledger_run Clean [ESet "Trakt" "access_token" "a";
                    ESet "Trakt" "refresh_token" "r";
                    ERemote req; ESave c] = None.
Proof. reflexivity. Qed.

Example ledger_refuses_other_snapshot :
  ledger_run Clean [ESet "Trakt" "access_token" "a";
                    ESet "Trakt" "refresh_token" "r";
                    ESave Sample.full] = None.
Proof. vm_compute. reflexivity. Qed.

Example ledger_accepts_pair :
  ledger_run Clean [ESet "Trakt" "access_token" "a0";
                    ESet "Trakt" "refresh_token" "r0";
                    ESave Sample.full] = Some Clean.
Proof. vm_compute. reflexivity. Qed.

Lemma ledger_run_app (st : ledger) (t1 t2 : list event) :
  ledger_run st (t1 ++ t2) =
    match ledger_run st t1 with
    | Some st' => ledger_run st' t2
    | None => None
    end.
Proof.
  revert st. induction t1 as [|e t1 IH]; intros st; simpl; [done|].
  destruct (ledger_step st e); [apply IH|done].
Qed.

Lemma ledger_run_quiet (st : ledger) (evs : list event) :
  st = Clean →
  Forall (λ e, is_mutation e = false) evs →
  ledger_run st evs = Some Clean.
Proof.
  intros -> Hall. induction Hall as [|e evs He _ IH]; [done|].
  simpl. by destruct e.
Qed.

Section Safe.

Variable d0 : option cfg.

Lemma safe_bind {A B} (m : M A) (f : A → M B) :
  safe d0 m → (∀ a, safe d0 (f a)) → safe d0 (m ≫= f).
Proof.
  intros Hm Hf w Hs Hc. rewrite bind_unfold.
  destruct (Hm w Hs Hc) as [Hs1 Hc1].
  destruct (m w) as [[a|code|e] w1]; simpl in *; [|by split..].
  apply Hf; [done|by apply (Hc1 a)].
Qed.

Lemma quiet_safe {A} (m : M A) :
  (∀ clock, quiet clock (λ e, is_mutation e = false) m) → safe d0 m.
Proof.
  intros Hq w [Hp Hl] Hc.
  destruct (Hq (utcnow w) w eq_refl) as (Hcfg & Hdisk & _ & evs & Htr & Hall).
  assert (clean (m w).2) as Hc'.
  { unfold clean in *. rewrite Htr, ledger_run_app, Hc.
    by apply ledger_run_quiet. }
  split; [|done]. unfold clean in Hc, Hc'. unfold sound.
  rewrite Hc in Hl. rewrite Hc', Hdisk, Hcfg. done.
Qed.

Lemma safe_print (s : string) : safe d0 (print s).
Proof.
  apply quiet_safe. intros clock. by apply quiet_print.
Qed.

Lemma safe_sync_for_user (user_id : Z) : safe d0 (sync_for_user user_id).
Proof.
  apply quiet_safe. intros clock. by apply quiet_sync_for_user.
Qed.

Lemma safe_Trakt_init (ty : option string) (id season_n episode_n : json) :
  safe d0 (Trakt_init ty id season_n episode_n).
Proof.
  apply quiet_safe. intros clock. by apply quiet_Trakt_init.
Qed.

Lemma safe_generate_device_code (self : Trakt) (hs : list (string * string)) :
  safe d0 (generate_device_code self hs).
Proof.
  apply quiet_safe. intros clock. by apply quiet_generate_device_code.
Qed.

Lemma safe_sync_history (self : Trakt) : safe d0 (sync_history self).
Proof. apply quiet_safe. intros clock. by apply quiet_sync_history. Qed.

Lemma config_set_cases (section name : string) (v : json) w :
  (∃ s opts, v = JStr s ∧ config w !! section = Some opts ∧
     config_set section name v w =
       (Ret (), log (ESet section name s)
                    (with_config (<[section := <[name := s]> opts]> (config w)) w)))
  ∨ (∃ e, config_set section name v w = (Raise e, w)).
Proof.
  unfold config_set, cfg_set.
  destruct v; try (right; eauto; fail).
  destruct (config w !! section) as [opts|]; [left|right]; eauto.
Qed.

Lemma write_settings_cases w :
  (writable w = true ∧
   write_settings w =
     (Ret (), log (ESave (config w)) (with_disk (Some (config w)) w)))
  ∨ (∃ msg, write_settings w = (Exit 1, log (EPrint msg) w)).
Proof.
  unfold write_settings. destruct (writable w); [by left|right]. eauto.
Qed.

Lemma safe_store_tokens (response : json) (msg : string) :
  safe d0 (store_tokens response msg).
Proof.
  intros w Hs Hc. pose proof Hs as [Hp Hl]. unfold clean in Hc.
  unfold store_tokens. rewrite lift_bind.
  destruct (getitem response "access_token") as [access| |]; [|done..].
  rewrite bind_unfold.
  destruct (config_set_cases "Trakt" "access_token" access w)
    as [(a & opts & -> & Hsec & ->)|[e ->]]; [|done].
  remember (log (ESet "Trakt" "access_token" a) _) as w1 eqn:E1.
  assert (trace w1 = trace w ++ [ESet "Trakt" "access_token" a]
          ∧ disk w1 = disk w
          ∧ config w1 = <["Trakt" := <["access_token" := a]> opts]> (config w))
    as (Ht1 & Hd1 & Hc1) by by rewrite E1.
  clear E1.
  assert (ledger_run Clean (trace w1) = Some (HalfSet a)) as Hl1
    by by rewrite Ht1, ledger_run_app, Hc.
  assert (sound d0 w1) as Hs1.
  { split; [by rewrite Hd1|]. by rewrite Hl1. }
  rewrite lift_bind.
  destruct (getitem response "refresh_token") as [refresh| |];
    [|by split..].
  rewrite bind_unfold.
  destruct (config_set_cases "Trakt" "refresh_token" refresh w1)
    as [(r & opts1 & -> & Hsec1 & ->)|[e ->]]; [|by split].
  assert (opts1 = <["access_token" := a]> opts) as ->.
  { revert Hsec1. rewrite Hc1, lookup_insert_eq. congruence. }
  remember (log (ESet "Trakt" "refresh_token" r) _) as w2 eqn:E2.
  assert (trace w2 = trace w1 ++ [ESet "Trakt" "refresh_token" r]
          ∧ disk w2 = disk w
          ∧ config w2 = with_tokens a r (config w))
    as (Ht2 & Hd2 & Hc2).
  { rewrite E2. world_simpl. split_and!; [done..|].
    unfold with_tokens. by rewrite Hc1, Hsec, insert_insert_eq. }
  clear E2.
  assert (ledger_run Clean (trace w2) = Some (BothSet a r)) as Hl2
    by by rewrite Ht2, ledger_run_app, Hl1.
  assert (is_Some (config w !! "Trakt")) as Hsome by by rewrite Hsec.
  assert (stored (with_tokens a r (config w)) "Trakt" "access_token" = Some a
          ∧ stored (with_tokens a r (config w)) "Trakt" "refresh_token"
            = Some r) as Hpair
    by by split; [apply with_tokens_access|apply with_tokens_refresh].
  rewrite bind_unfold.
  destruct (write_settings_cases w2) as [[Hw ->]|[err ->]].
  - unfold print, emit. unfold sound, clean. world_simpl.
    rewrite !ledger_run_app, Hl2, Hc2. simpl.
    rewrite (bool_decide_eq_true_2 _ Hpair). simpl.
    split; [|done]. split; [|done].
    right. exists (with_tokens a r (config w)), a, r. by destruct Hpair.
  - unfold sound. world_simpl. rewrite ledger_run_app, Hl2, Hd2. simpl.
    by split.
Qed.

Lemma safe_poll_access_token (depth : nat) (self : Trakt)
    (hs : list (string * string)) (device_code : json) :
  safe d0 (poll_access_token depth self hs device_code).
Proof.
  intros w Hs Hc. pose proof Hs as [Hp Hl]. unfold clean in Hc.
  destruct (inbox w) as [|r rest] eqn:Hin.
  - assert (poll_access_token depth self hs device_code w =
            (Raise ConnectionError,
             log (ERemote (poll_request self hs device_code)) w)) as ->.
    { destruct depth; simpl; unfold requests_post;
        rewrite bind_unfold; unfold send; by rewrite Hin. }
    world_simpl. split; [|done]. split; world_simpl; [done|].
    rewrite ledger_run_app, Hc. simpl. by rewrite Hc in Hl.
  - rewrite (poll_access_token_answered _ _ _ _ r rest) by done.
    set (w1 := log _ _).
    assert (sound d0 w1 ∧ clean w1) as [Hs1 Hc1].
    { unfold sound, clean. subst w1. world_simpl.
      rewrite ledger_run_app, Hc. simpl. by rewrite Hc in Hl. }
    cbv zeta. destruct (status_code r =? 400).
    { split; [|done]. destruct Hs1 as [Hp1 Hl1]. unfold clean in Hc1.
      split; world_simpl; [done|].
      rewrite ledger_run_app, Hc1. simpl. by rewrite Hc1 in Hl1. }
    destruct (negb (status_code r =? 200)).
    { split; [|done]. destruct Hs1 as [Hp1 Hl1]. unfold clean in Hc1.
      split; world_simpl; [done|].
      rewrite ledger_run_app, Hc1. simpl. by rewrite Hc1 in Hl1. }
    apply (safe_bind (r_json r)
             (λ response, store_tokens response
                "Succesfully configured your Trakt.tv sync!")); try done.
    + apply quiet_safe. intros clock. by apply quiet_r_json.
    + intros response. apply safe_store_tokens.
Qed.

Lemma safe_authenticate (self : Trakt) : safe d0 (authenticate self).
Proof.
  unfold authenticate. apply safe_bind.
  - apply safe_generate_device_code.
  - intros device_code. unfold bound_call. simpl.
    apply safe_poll_access_token.
Qed.

Lemma safe_refresh_access_token (self : Trakt) :
  safe d0 (refresh_access_token self).
Proof.
  unfold refresh_access_token. apply safe_bind.
  { apply quiet_safe. intros clock. by apply quiet_lookup. }
  intros stored_refresh. apply safe_bind.
  { apply quiet_safe. intros clock. by apply quiet_post_other. }
  intros r. apply safe_bind.
  { apply quiet_safe. intros clock. by apply quiet_r_json. }
  intros response.
  apply (safe_store_tokens response "Refreshed access token succesfully!").
Qed.

Lemma safe_main (opts : options) : safe d0 (main opts).
Proof.
  unfold main. apply safe_bind; [apply safe_sync_for_user|intros allowed].
  destruct (negb allowed && negb (userId opts =? -1)).
  { apply safe_bind; [apply safe_print|intros _].
    apply quiet_safe. intros clock. by apply quiet_exit. }
  destruct (String.eqb (contentType opts) "trakt_authenticate").
  { apply safe_bind; [apply safe_Trakt_init|intros trakt].
    apply safe_authenticate. }
  destruct (String.eqb (contentType opts) "trakt_refresh").
  { apply safe_bind; [apply safe_Trakt_init|intros trakt].
    apply safe_refresh_access_token. }
  destruct (String.eqb (contentType opts) "movie").
  { apply safe_bind; [apply safe_Trakt_init|intros trakt].
    apply safe_bind; [apply safe_refresh_access_token|intros _].
    apply safe_sync_history. }
  destruct (String.eqb (contentType opts) "episode").
  { apply safe_bind; [apply safe_Trakt_init|intros trakt].
    apply safe_bind; [apply safe_refresh_access_token|intros _].
    apply safe_sync_history. }
  apply safe_print.
Qed.

End Safe.

(** C2.  Along every run of the script the ledger never refuses an event:
    [access_token] is only ever set together with [refresh_token], a save
    only ever writes a snapshot holding that pair, and no request goes out
    between the first of the two sets and the save.  So the file holds what
    it held at the start or a pair of tokens written together; when the
    run ends with nothing pending, the file agrees with the settings in
    memory, and a run that ends with a token set but not saved has not
    returned normally. *)
Theorem tokens_written_together_and_saved (env : environment)
    (opts : options) :
  paired_or_untouched (settings env) (disk (script env opts).2)
  ∧ match ledger_run Clean (trace (script env opts).2) with
    | Some Clean =>
        is_Some (settings env) →
        disk (script env opts).2 = Some (config (script env opts).2)
    | Some _ => (script env opts).1 ≠ Ret ()
    | None => False
    end.
Proof.
  unfold script. destruct (settings env) as [c|] eqn:Hs.
  - assert (sound (Some c) (boot env c) ∧ clean (boot env c)) as [Hs0 Hc0].
    { unfold sound, clean, boot. world_simpl. rewrite Hs. simpl.
      split; [|done]. split; [by left|done]. }
    destruct (safe_main (Some c) opts (boot env c) Hs0 Hc0) as [[Hp Hl] Hret].
    split; [done|].
    destruct (ledger_run Clean (trace (main opts (boot env c)).2))
      as [[| |]|] eqn:El; try done.
    + intros Heq. destruct (main opts (boot env c)) as [[[]| |] w']; try done.
      specialize (Hret () eq_refl). unfold clean in Hret. simpl in *.
      congruence.
    + intros Heq. destruct (main opts (boot env c)) as [[[]| |] w']; try done.
      specialize (Hret () eq_refl). unfold clean in Hret. simpl in *.
      congruence.
  - rewrite !bind_unfold. unfold settings_path, print, emit, boot.
    rewrite Hs. simpl. split; [by left|]. by intros [].
Qed.

(** ** Every run works through the plan of its content type *)

Lemma steps_app (t1 t2 : list event) : steps (t1 ++ t2) = steps t1 ++ steps t2.
Proof. apply omap_app. Qed.

Lemma follows_still {A} (o : outcome A) :
  (∀ c, o = Exit c → c = 0 ∨ c = 1) →
  follows [] (λ w, (o, w)).
Proof.
  intros Ho w. exists []. rewrite app_nil_r. split_and!; try done.
Qed.

Lemma follows_ret {A} (a : A) : follows [] (mret a).
Proof. by apply follows_still. Qed.

Lemma follows_raise {A} (e : exn) : follows [] (@raise A e).
Proof. by apply follows_still. Qed.

Lemma follows_exit {A} (code : Z) :
  code = 0 ∨ code = 1 → follows [] (@sys_exit A code).
Proof. intros Hc. apply follows_still. by intros c [= <-]. Qed.

Lemma follows_getitem (v : json) (k : string) : follows [] (lift (getitem v k)).
Proof.
  apply follows_still. intros c. unfold getitem.
  by repeat case_match.
Qed.

Lemma follows_getitem0 (v : json) : follows [] (lift (getitem0 v)).
Proof.
  apply follows_still. intros c. unfold getitem0.
  by repeat case_match.
Qed.

Lemma follows_bind {A B} (s1 s2 s : list step) (m : M A) (f : A → M B) :
  follows s1 m → (∀ a, follows s2 (f a)) → s = s1 ++ s2 →
  follows s (m ≫= f).
Proof.
  intros Hm Hf -> w. rewrite bind_unfold.
  destruct (Hm w) as (evs1 & Htr1 & Hpre1 & Hret1 & Hexit1).
  destruct (m w) as [[a|code|e] w1]; simpl in *.
  - destruct (Hf a w1) as (evs2 & Htr2 & Hpre2 & Hret2 & Hexit2).
    exists (evs1 ++ evs2). rewrite Htr2, Htr1, <- app_assoc, steps_app.
    rewrite (Hret1 a eq_refl). split_and!; [done| |intros b Hb|done].
    + by apply prefix_app.
    + by rewrite (Hret2 b Hb).
  - exists evs1. split_and!; [done|by apply prefix_app_r|done|].
    intros c [= <-]. by apply Hexit1.
  - exists evs1. split_and!; [done|by apply prefix_app_r|done|done].
Qed.

Lemma follows_emit_quiet (e : event) : step_of e = None → follows [] (emit e).
Proof.
  intros He w. exists [e]. split_and!; try done.
  - unfold steps. simpl. by rewrite He.
  - intros _ _. unfold steps. simpl. by rewrite He.
Qed.

Lemma follows_print (s : string) : follows [] (print s).
Proof. by apply follows_emit_quiet. Qed.

Lemma follows_input (s : string) : follows [] (input s).
Proof.
  eapply follows_bind; [by apply follows_emit_quiet| |reflexivity].
  intros _. apply follows_ret.
Qed.

Lemma follows_send (req : request) :
  follows [Request (endpoint_of (url req))] (send req).
Proof.
  intros w. exists [ERemote req]. unfold send.
  destruct (inbox w); by split_and!.
Qed.

Lemma follows_config_get (section name : string) :
  follows [] (config_get section name).
Proof.
  intros w. unfold config_get.
  destruct (cfg_get (config w) section name); by apply follows_still.
Qed.

Lemma follows_not_setup {A} (field : string) : follows [] (@not_setup A field).
Proof.
  eapply follows_bind; [apply follows_print| |reflexivity].
  intros _. apply follows_exit. by right.
Qed.

Lemma follows_lookup (section name : string) :
  follows []
    (try_except (config_get section name) lookup_errors (not_setup name)).
Proof.
  intros w. unfold try_except, config_get.
  destruct (cfg_get (config w) section name) as [e|v].
  - destruct (lookup_errors e); [apply follows_not_setup|].
    by apply (follows_still (Raise e)).
  - by apply (follows_still (Ret v)).
Qed.

Lemma follows_attr {A} (a : option A) : follows [] (attr a).
Proof. destruct a; [apply follows_ret|apply follows_raise]. Qed.

Lemma follows_r_json (r : response) : follows [] (r_json r).
Proof.
  unfold r_json. destruct (body r); [apply follows_ret|apply follows_raise].
Qed.

Lemma follows_now : follows [] now.
Proof. intros w. by apply (follows_still (Ret (utcnow w))). Qed.

Lemma follows_config_set (section name : string) (v : json) :
  follows [SetToken name] (config_set section name v).
Proof.
  intros w.
  destruct (config_set_cases section name v w)
    as [(s & opts & -> & Hsec & ->)|[e ->]].
  - exists [ESet section name s]. by split_and!.
  - exists []. rewrite app_nil_r. split_and!; try done. apply prefix_nil.
Qed.

Lemma follows_write_settings : follows [Save] write_settings.
Proof.
  intros w. unfold write_settings. destruct (writable w).
  - exists [ESave (config w)]. by split_and!.
  - exists [EPrint ("ERROR: unable to write to " +:+
                    (credential_path w +:+ "/" +:+ credential_file))].
    split_and!; [done|apply prefix_nil|done|].
    intros c [= <-]. by right.
Qed.

Ltac follows_leaf :=
  first
    [ apply follows_ret | apply follows_raise | apply follows_print
    | apply follows_input | apply follows_getitem | apply follows_getitem0
    | apply follows_send | apply follows_config_get | apply follows_lookup
    | apply follows_attr | apply follows_r_json | apply follows_now
    | apply follows_config_set | apply follows_write_settings
    | apply follows_not_setup ].

Ltac follows_step :=
  lazymatch goal with
  | |- follows _ (_ ≫= _) =>
      eapply follows_bind; [follows_leaf| |reflexivity]; intros ?
  | |- follows _ _ => follows_leaf
  end.

Lemma follows_store_tokens (response : json) (msg : string) :
  follows store_plan (store_tokens response msg).
Proof. unfold store_tokens, store_plan. repeat follows_step. Qed.

Lemma follows_sync_for_user (user_id : Z) : follows [] (sync_for_user user_id).
Proof. unfold sync_for_user. repeat follows_step. Qed.

Lemma follows_Trakt_init (ty : option string) (id season_n episode_n : json) :
  follows [] (Trakt_init ty id season_n episode_n).
Proof. unfold Trakt_init. repeat follows_step. Qed.

Lemma follows_generate_device_code (self : Trakt)
    (hs : list (string * string)) :
  follows [Request DeviceCode] (generate_device_code self hs).
Proof.
  unfold generate_device_code, requests_post. repeat follows_step.
Qed.

Lemma follows_refresh_access_token (self : Trakt) :
  follows (Request Token :: store_plan) (refresh_access_token self).
Proof.
  unfold refresh_access_token, get_refresh_token, requests_post.
  do 3 follows_step. apply follows_store_tokens.
Qed.

Lemma follows_stop {A} (s1 s2 : list step) (m : M A) :
  follows s1 m → (∀ w a, (m w).1 ≠ Ret a) → follows (s1 ++ s2) m.
Proof.
  intros Hm Hnever w.
  destruct (Hm w) as (evs & Htr & Hpre & Hret & Hexit).
  exists evs. split_and!; [done|by apply prefix_app_r| |done].
  intros a Ha. by destruct (Hnever w a).
Qed.

Lemma follows_raise_bind {A B} (e : exn) (f : A → M B) :
  follows [] (raise e ≫= f).
Proof. intros w. by apply (follows_still (Raise e)). Qed.

Lemma follows_bind_post {A B} (Q : A → Prop) (s1 s2 s : list step)
    (m : M A) (f : A → M B) :
  follows s1 m → returns Q m → (∀ a, Q a → follows s2 (f a)) →
  s = s1 ++ s2 → follows s (m ≫= f).
Proof.
  intros Hm HQ Hf -> w. rewrite bind_unfold.
  destruct (Hm w) as (evs1 & Htr1 & Hpre1 & Hret1 & Hexit1).
  pose proof (HQ w) as HQw.
  destruct (m w) as [[a|code|e] w1]; simpl in *.
  - destruct (Hf a (HQw a eq_refl) w1)
      as (evs2 & Htr2 & Hpre2 & Hret2 & Hexit2).
    exists (evs1 ++ evs2). rewrite Htr2, Htr1, <- app_assoc, steps_app.
    rewrite (Hret1 a eq_refl). split_and!; [done| |intros b Hb|done].
    + by apply prefix_app.
    + by rewrite (Hret2 b Hb).
  - exists evs1. split_and!; [done|by apply prefix_app_r|done|].
    intros c [= <-]. by apply Hexit1.
  - exists evs1. split_and!; [done|by apply prefix_app_r|done|done].
Qed.

Lemma follows_get_movie (self : Trakt) :
  follows [Request Lookup] (get_movie self).
Proof. unfold get_movie, requests_get. repeat follows_step. Qed.

Lemma follows_get_show (self : Trakt) :
  follows [Request Lookup] (get_show self).
Proof. unfold get_show, requests_get. repeat follows_step. Qed.

Lemma follows_get_episode (self : Trakt) (show : json) :
  follows [Request Lookup] (get_episode self show).
Proof. unfold get_episode, requests_get. repeat follows_step. Qed.

Lemma follows_id_of (v : json) (k : string) : follows [] (id_of v k).
Proof. unfold id_of. repeat follows_step. Qed.

Lemma follows_movie_payload (wa : string) (movie : json) :
  follows [] (movie_payload wa movie).
Proof.
  unfold movie_payload. do 2 follows_step.
  do 4 (eapply follows_bind; [apply follows_id_of| |reflexivity]; intros ?).
  apply follows_ret.
Qed.

Lemma follows_episode_payload (wa : string) (ep : json) :
  follows [] (episode_payload wa ep).
Proof.
  unfold episode_payload.
  do 4 (eapply follows_bind; [apply follows_id_of| |reflexivity]; intros ?).
  apply follows_ret.
Qed.

Lemma follows_submit (u : string) (p : json) (hs : list (string * string)) :
  follows [Request (endpoint_of u)] (requests_post u p hs;; mret ()).
Proof. unfold requests_post. repeat follows_step. Qed.

Lemma follows_ret_bind {A B} (s : list step) (a : A) (f : A → M B) :
  follows s (f a) → follows s (mret a ≫= f).
Proof. intros H w. apply H. Qed.

Lemma follows_sync_history (self : Trakt) :
  follows (history_plan (type self)) (sync_history self).
Proof.
  unfold sync_history, get_access_token.
  eapply follows_bind; [apply follows_lookup| |reflexivity]. intros tok.
  eapply follows_bind; [apply follows_now| |reflexivity]. intros dt.
  destruct (type self) as [ty|]; simpl attr; [|apply follows_raise_bind].
  apply follows_ret_bind. unfold history_plan.
  destruct (String.eqb ty "movie").
  { eapply (follows_bind [Request Lookup]);
      [|intros p; apply follows_submit|reflexivity].
    eapply follows_bind;
      [apply follows_get_movie|intros; apply follows_movie_payload|done]. }
  destruct (String.eqb ty "episode").
  { eapply (follows_bind [Request Lookup; Request Lookup]);
      [|intros p; apply follows_submit|reflexivity].
    eapply follows_bind; [apply follows_get_show| |reflexivity]. intros show.
    eapply follows_bind;
      [apply follows_get_episode|intros; apply follows_episode_payload|done]. }
  apply follows_raise_bind.
Qed.

Lemma follows_poll_access_token (depth : nat) (self : Trakt)
    (hs : list (string * string)) (device_code : json) :
  follows (Request DeviceToken :: store_plan)
    (poll_access_token depth self hs device_code).
Proof.
  intros w. destruct (inbox w) as [|r rest] eqn:Hin.
  - assert (poll_access_token depth self hs device_code w =
            (Raise ConnectionError,
             log (ERemote (poll_request self hs device_code)) w)) as ->.
    { destruct depth; simpl; unfold requests_post;
        rewrite bind_unfold; unfold send; by rewrite Hin. }
    exists [ERemote (poll_request self hs device_code)].
    split_and!; [done|by exists store_plan|done|done].
  - rewrite (poll_access_token_answered _ _ _ _ r rest) by done.
    cbv zeta. destruct (status_code r =? 400).
    { exists [ERemote (poll_request self hs device_code);
              EInput pending_prompt].
      world_simpl. rewrite <- app_assoc.
      split_and!; [done|by exists store_plan|done|done]. }
    destruct (negb (status_code r =? 200)).
    { exists [ERemote (poll_request self hs device_code);
              EPrint "Something went wrong, please try again."].
      world_simpl. rewrite <- app_assoc.
      split_and!; [done|by exists store_plan|done|].
      intros c [= <-]. by right. }
    assert (follows store_plan
              (r_json r ≫= λ response,
                 store_tokens response
                   "Succesfully configured your Trakt.tv sync!")) as Htail.
    { eapply follows_bind; [apply follows_r_json| |reflexivity].
      intros response. apply follows_store_tokens. }
    unfold store_tokens in Htail.
    destruct (Htail (log (ERemote (poll_request self hs device_code))
                         (with_inbox rest w)))
      as (evs & Htr & Hpre & Hret & Hexit).
    exists (ERemote (poll_request self hs device_code) :: evs).
    split_and!.
    + rewrite Htr. world_simpl. by rewrite <- app_assoc.
    + destruct Hpre as [k Hk]. exists k. unfold steps in *. simpl.
      by rewrite Hk.
    + intros a Ha. unfold steps. simpl. f_equal. by apply (Hret a).
    + done.
Qed.

Lemma follows_authenticate (self : Trakt) :
  follows (Request DeviceCode :: Request DeviceToken :: store_plan)
    (authenticate self).
Proof.
  unfold authenticate.
  eapply follows_bind; [apply follows_generate_device_code| |reflexivity].
  intros device_code. unfold bound_call. simpl.
  apply follows_poll_access_token.
Qed.

Lemma Trakt_init_kind (ty : option string) (id season_n episode_n : json) :
  returns (λ t, history_plan (type t) = history_plan ty)
    (Trakt_init ty id season_n episode_n).
Proof.
  unfold Trakt_init. do 2 (apply returns_bind; intros ?).
  apply returns_ret. unfold history_plan.
  destruct ty as [t|]; [|done].
  destruct (String.eqb t "movie") eqn:E1; [done|].
  destruct (String.eqb t "episode") eqn:E2; done.
Qed.

Lemma never_after_print {A} (msg : string) (code : Z) w (a : A) :
  ((print msg;; sys_exit code) w).1 ≠ Ret a.
Proof. done. Qed.

Lemma follows_main (opts : options) :
  follows (plan (contentType opts)) (main opts).
Proof.
  unfold main.
  eapply follows_bind; [apply follows_sync_for_user| |reflexivity].
  intros allowed.
  destruct (negb allowed && negb (userId opts =? -1)).
  { apply (follows_stop [] (plan (contentType opts))).
    - eapply follows_bind; [apply follows_print| |reflexivity].
      intros _. apply follows_exit. by left.
    - intros w a. apply never_after_print. }
  unfold plan.
  destruct (String.eqb (contentType opts) "trakt_authenticate").
  { eapply follows_bind; [apply follows_Trakt_init| |reflexivity].
    intros trakt. apply follows_authenticate. }
  destruct (String.eqb (contentType opts) "trakt_refresh").
  { eapply follows_bind; [apply follows_Trakt_init| |reflexivity].
    intros trakt. apply follows_refresh_access_token. }
  destruct (String.eqb (contentType opts) "movie").
  { eapply follows_bind_post;
      [apply follows_Trakt_init|apply Trakt_init_kind| |reflexivity].
    intros trakt Hkind.
    eapply (follows_bind (Request Token :: store_plan));
      [apply follows_refresh_access_token| |reflexivity].
    intros _. rewrite <- Hkind. apply follows_sync_history. }
  destruct (String.eqb (contentType opts) "episode").
  { eapply follows_bind_post;
      [apply follows_Trakt_init|apply Trakt_init_kind| |reflexivity].
    intros trakt Hkind.
    eapply (follows_bind (Request Token :: store_plan));
      [apply follows_refresh_access_token| |reflexivity].
    intros _. rewrite <- Hkind. apply follows_sync_history. }
  apply follows_print.
Qed.

Lemma count_prefix (p : step → bool) (l1 l2 : list step) :
  l1 `prefix_of` l2 →
  (length (List.filter p l1) ≤ length (List.filter p l2))%nat.
Proof.
  intros [k ->]. rewrite List.filter_app, length_app. lia.
Qed.

Lemma remote_calls_steps (t : list event) :
  remote_calls t = length (List.filter is_request (steps t)).
Proof.
  unfold remote_calls, steps.
  induction t as [|e t IH]; [done|]. destruct e; simpl; by rewrite ?IH.
Qed.

Lemma saves_steps (t : list event) :
  saves t = length (List.filter is_saving (steps t)).
Proof.
  unfold saves, steps.
  induction t as [|e t IH]; [done|]. destruct e; simpl; by rewrite ?IH.
Qed.

Lemma script_run (env : environment) (opts : options) :
  steps (trace (script env opts).2) `prefix_of` plan (contentType opts)
  ∧ (∀ a, (script env opts).1 = Ret a →
       steps (trace (script env opts).2) = plan (contentType opts))
  ∧ (∀ c, (script env opts).1 = Exit c → c = 0 ∨ c = 1).
Proof.
  unfold script. destruct (settings env) as [c|].
  - destruct (follows_main opts (boot env c))
      as (evs & Htr & Hpre & Hret & Hexit).
    rewrite Htr. by split_and!.
  - split_and!; [apply prefix_nil|done|]. intros c [= <-]. by right.
Qed.

(** X1.  Whatever the settings, the command line and the answers of the
    remote side, the requests, token updates and saves of a run are a
    prefix of the plan of its content type, in the plan's order; and a run
    that ends normally has gone through the whole plan. *)
Theorem run_follows_plan (env : environment) (opts : options) :
  steps (trace (script env opts).2) `prefix_of` plan (contentType opts)
  ∧ ((script env opts).1 = Ret () →
     steps (trace (script env opts).2) = plan (contentType opts)).
Proof.
  destruct (script_run env opts) as (Hpre & Hret & _).
  split; [done|apply Hret].
Qed.

Lemma plan_bounds (ct : string) :
  (length (List.filter is_request (plan ct)) ≤ 4)%nat
  ∧ (length (List.filter is_saving (plan ct)) ≤ 1)%nat
  ∧ (length (List.filter is_poll (plan ct)) ≤ 1)%nat.
Proof.
  unfold plan. repeat case_match; simpl; lia.
Qed.

(** X2.  No run sends more than four requests, writes the settings file
    more than once, or polls the device-token endpoint more than once. *)
Theorem run_is_bounded (env : environment) (opts : options) :
  (remote_calls (trace (script env opts).2) ≤ 4)%nat
  ∧ (saves (trace (script env opts).2) ≤ 1)%nat
  ∧ (length (List.filter is_poll (steps (trace (script env opts).2))) ≤ 1)%nat.
Proof.
  destruct (script_run env opts) as (Hpre & _ & _).
  destruct (plan_bounds (contentType opts)) as (H4 & H1 & Hp).
  rewrite remote_calls_steps, saves_steps.
  split_and!; (etrans; [by apply count_prefix|done]).
Qed.


(** ** Failures of a refresh *)

(** X4.  Without a stored [refresh_token] a refresh sends nothing: it
    prints the error naming [refresh_token] and exits with status 1. *)
Theorem refresh_without_refresh_token (self : Trakt) w :
  stored (config w) "Trakt" "refresh_token" = None →
  refresh_access_token self w =
    (Exit 1,
     log (EPrint "ERROR: sync_settings.ini not setup - missing refresh_token")
         w).
Proof.
  intros H. unfold refresh_access_token, get_refresh_token.
  by rewrite bind_unfold, get_or_not_setup_missing.
Qed.





(** ** The device flow when the first poll succeeds *)



(** ** Missing fields, beyond [client_id] *)

Lemma Trakt_init_missing_client_secret (ty : option string)
    (id season_n episode_n : json) (cid : string) w :
  stored (config w) "Trakt" "client_id" = Some cid →
  stored (config w) "Trakt" "client_secret" = None →
  Trakt_init ty id season_n episode_n w =
    (Exit 1,
     log (EPrint "ERROR: sync_settings.ini not setup - missing client_secret")
         w).
Proof.
  intros Hid Hsec. unfold Trakt_init.
  rewrite bind_unfold, (get_or_not_setup_found _ _ cid) by done.
  by rewrite bind_unfold, get_or_not_setup_missing.
Qed.

(** X8.  With [client_id] in the settings but no [client_secret], each of
    the four operations stops in the constructor once the gate is passed:
    the error naming [client_secret] is printed, the exit status is 1 and
    no request has been sent, not even the device-code request that would
    need [client_id] alone. *)
Theorem missing_client_secret_is_fatal (env : environment) (opts : options)
    (c : cfg) (cid : string) :
  settings env = Some c →
  stored c "Trakt" "client_id" = Some cid →
  stored c "Trakt" "client_secret" = None →
  let_through c (userId opts) →
  recognised (contentType opts) →
  script env opts =
    (Exit 1,
     log (EPrint "ERROR: sync_settings.ini not setup - missing client_secret")
         (boot env c)).
Proof.
  intros Hs Hid Hsec (ids & Hu & Hin) Hct%recognised_eqb.
  unfold script. rewrite Hs. unfold main.
  rewrite bind_unfold, (sync_for_user_found _ ids) by done.
  rewrite gate_open by done.
  repeat (destruct (String.eqb (contentType opts) _);
          [by rewrite bind_unfold,
             (Trakt_init_missing_client_secret _ _ _ _ cid)|]).
  done.
Qed.

(** X9.  Without a stored [access_token], [sync_history] sends nothing:
    it prints the error naming [access_token] and exits with status 1
    before any lookup. *)
Theorem sync_history_without_access_token (self : Trakt) w :
  stored (config w) "Trakt" "access_token" = None →
  sync_history self w =
    (Exit 1,
     log (EPrint "ERROR: sync_settings.ini not setup - missing access_token")
         w).
Proof.
  intros H. unfold sync_history, get_access_token.
  by rewrite bind_unfold, get_or_not_setup_missing.
Qed.

(** X10.  When the movie search has no first hit ([response[0]] raises: an
    empty list, or a body that is not a list), [sync_history] dies with
    that exception after the one lookup: nothing is submitted to the
    history. *)
Theorem sync_history_without_hit (self : Trakt) (tok : string) (id : json)
    (found : response) (rest : list response) (j : json) (e : exn) w :
  type self = Some "movie" →
  imdb_id self = Some id →
  stored (config w) "Trakt" "access_token" = Some tok →
  inbox w = found :: rest →
  body found = Some j →
  getitem0 j = Raise e →
  sync_history self w =
    (Raise e,
     log (ERemote (search_request self
            ("https://api.trakt.tv/search/imdb/" +:+ py_str id +:+
             "?type=movie")))
         (with_inbox rest w)).
Proof.
  intros Hty Hid Htok Hin Hb H0.
  unfold sync_history, get_access_token, now, attr.
  rewrite bind_unfold, (get_or_not_setup_found _ _ tok) by done.
  rewrite bind_unfold, Hty, ret_bind. cbn [String.eqb Ascii.eqb Bool.eqb].
  rewrite bind_unfold, bind_unfold.
  unfold get_movie, attr, requests_get, r_json.
  rewrite Hid, ret_bind, bind_unfold, (send_next _ found rest) by done.
  by rewrite Hb, ret_bind, lift_bind, H0.
Qed.

(** ** A movie sync from end to end *)




(** ** The user id and the allow-list *)

(** X12.  The user id is looked at by the gate and nowhere else: two
    invocations that pass the gate and agree on everything but the user id
    do the same thing.  In particular the sentinel [-1] does what a listed
    user does. *)
Theorem user_id_only_opens_the_gate (env : environment)
    (opts1 opts2 : options) (c : cfg) :
  settings env = Some c →
  let_through c (userId opts1) →
  let_through c (userId opts2) →
  contentType opts1 = contentType opts2 →
  imdbId opts1 = imdbId opts2 →
  tvdbId opts1 = tvdbId opts2 →
  season opts1 = season opts2 →
  episode opts1 = episode opts2 →
  script env opts1 = script env opts2.
Proof.
  intros Hs (ids1 & Hu1 & Hin1) (ids2 & Hu2 & Hin2) Hct Himdb Htvdb Hse Hep.
  unfold script. rewrite Hs. unfold main.
  rewrite !bind_unfold, (sync_for_user_found _ ids1),
    (sync_for_user_found _ ids2) by done.
  rewrite !gate_open by done.
  by rewrite Hct, Himdb, Htvdb, Hse, Hep.
Qed.

Lemma split_on_cons (sep c : ascii) (s : string) :
  split_on sep (String c s) =
    if Ascii.eqb c sep then EmptyString :: split_on sep s
    else match split_on sep s with
         | piece :: pieces => String c piece :: pieces
         | [] => [String c EmptyString]
         end.
Proof. reflexivity. Qed.

Lemma split_on_free (sep : ascii) (s : string) :
  free_of sep s = true → split_on sep s = [s].
Proof.
  induction s as [|c s IH]; [done|]. rewrite split_on_cons. simpl.
  intros [Hc Hs]%andb_true_iff. apply negb_true_iff in Hc.
  by rewrite Hc, IH.
Qed.

Lemma split_on_piece (sep : ascii) (piece rest : string) :
  free_of sep piece = true →
  split_on sep (piece +:+ String sep rest) = piece :: split_on sep rest.
Proof.
  induction piece as [|c piece IH].
  - intros _. change (EmptyString +:+ String sep rest) with (String sep rest).
    by rewrite split_on_cons, Ascii.eqb_refl.
  - change (String c piece +:+ String sep rest)
      with (String c (piece +:+ String sep rest)).
    simpl. intros [Hc Hs]%andb_true_iff. apply negb_true_iff in Hc.
    by rewrite split_on_cons, Hc, IH.
Qed.

Lemma split_on_join (sep : ascii) (pieces : list string) :
  pieces ≠ [] →
  Forall (λ piece, free_of sep piece = true) pieces →
  split_on sep (join (String sep EmptyString) pieces) = pieces.
Proof.
  intros Hne Hall. induction Hall as [|piece pieces Hp Hall IH]; [done|].
  destruct pieces as [|piece' pieces].
  - simpl. by apply split_on_free.
  - change (join (String sep EmptyString) (piece :: piece' :: pieces))
      with (piece +:+ String sep (join (String sep EmptyString)
                                    (piece' :: pieces))).
    rewrite split_on_piece by done. by rewrite IH.
Qed.

Lemma free_of_app (c : ascii) (s t : string) :
  free_of c (s +:+ t) = free_of c s && free_of c t.
Proof.
  induction s as [|c' s IH]; simpl; [done|]. by rewrite IH, andb_assoc.
Qed.

Lemma pretty_N_go_free (x : N) (s : string) :
  free_of "," s = true → free_of "," (pretty_N_go x s) = true.
Proof.
  revert s. induction (N.lt_wf_0 x) as [x _ IH]. intros s Hs.
  assert (x = 0 ∨ 0 < x)%N as [->|Hpos] by lia.
  - by rewrite pretty_N_go_0.
  - rewrite pretty_N_go_step by done. apply IH.
    + by apply N.div_lt.
    + simpl. rewrite Hs. unfold pretty_N_char. by repeat case_match.
Qed.

Lemma pretty_N_free (x : N) : free_of "," (pretty x) = true.
Proof.
  unfold pretty, pretty_N. case_decide; [done|]. by apply pretty_N_go_free.
Qed.

Lemma pretty_Z_free (z : Z) : free_of "," (pretty z) = true.
Proof.
  destruct z as [|p|p]; [done|apply pretty_N_free|].
  unfold pretty, pretty_Z. rewrite free_of_app. simpl.
  apply (pretty_N_free (Npos p)).
Qed.

(** X13.  When [user_ids] is a comma-separated list of decimal ids, the
    way the docstring asks for it, [sync_for_user] answers exactly whether
    the user id is one of them: no id is taken for another (12 is not
    allowed by 123 or by 312), and no listed id is missed. *)
Theorem sync_for_user_decides_membership (ids : list Z) (user_id : Z) w :
  ids ≠ [] →
  stored (config w) "Plex" "user_ids" = Some (join "," (pretty <$> ids)) →
  sync_for_user user_id w = (Ret (bool_decide (user_id ∈ ids)), w).
Proof.
  intros Hne Hst.
  rewrite (sync_for_user_found _ (join "," (pretty <$> ids))) by done.
  rewrite split_on_join.
  - f_equal. f_equal. apply bool_decide_ext.
    apply (list_elem_of_fmap_inj pretty _).
  - by destruct ids.
  - apply Forall_fmap, Forall_forall. intros z _. apply pretty_Z_free.
Qed.

(** ** The stamp identifies the second *)

(** X14.  Two clock readings get the same [watched_at] exactly when they
    agree to the second: the microseconds never show, and nothing coarser
    than a second is lost. *)
Theorem same_stamp_iff_same_second (dt1 dt2 : datetime) :
  valid_datetime dt1 →
  valid_datetime dt2 →
  strftime_watched dt1 = strftime_watched dt2
  ↔ whole_second dt1 = whole_second dt2.
Proof.
  intros Hv1 Hv2. split.
  - intros Heq.
    destruct (strftime_watched_parses dt1 Hv1) as [Hp1 _].
    destruct (strftime_watched_parses dt2 Hv2) as [Hp2 _].
    rewrite Heq in Hp1. congruence.
  - intros Heq.
    change (strftime_watched (whole_second dt1)
            = strftime_watched (whole_second dt2)).
    by rewrite Heq.
Qed.

(** ** An episode is found through its show *)

(** X15.  For an episode [sync_history] makes three requests in this
    order: the search of the show by its TVDB id, the lookup of the episode
    under the slug that search returned with the season and episode numbers
    of the command line, and the history submission of that episode's ids.
    With an answer to each it returns. *)
Theorem episode_is_found_through_its_show (self : Trakt) (tok : string)
    (id s e : json) (found_show found_ep : response) (rest : list response)
    (j first show slug ep trakt tvdb imdb tmdb : json) w :
  type self = Some "episode" →
  tvdb_id self = Some id →
  season_num self = Some s →
  episode_num self = Some e →
  stored (config w) "Trakt" "access_token" = Some tok →
  inbox w = found_show :: found_ep :: rest →
  body found_show = Some j →
  getitem0 j = Ret first →
  getitem first "show" = Ret show →
  lookup_id show "slug" = Ret slug →
  body found_ep = Some ep →
  lookup_id ep "trakt" = Ret trakt →
  lookup_id ep "tvdb" = Ret tvdb →
  lookup_id ep "imdb" = Ret imdb →
  lookup_id ep "tmdb" = Ret tmdb →
  rest ≠ [] →
  (sync_history self w).1 = Ret ()
  ∧ trace (sync_history self w).2 =
      trace w ++
      [ERemote (search_request self
         ("https://api.trakt.tv/search/tvdb/" +:+ py_str id +:+ "?type=show"));
       ERemote (search_request self
         ("https://api.trakt.tv/shows/" +:+ py_str slug +:+
          "/seasons/" +:+ py_str s +:+ "/episodes/" +:+ py_str e));
       ERemote (history_request self tok
         (episode_entry (strftime_watched (utcnow w)) trakt tvdb imdb tmdb))].
Proof.
  intros Hty Hid Hs He Htok Hin Hb H0 Hshow Hslug Hep H1 H2 H3 H4 Hrest.
  destruct (sync_history_episode self tok id s e found_show found_ep rest
              j first show slug ep trakt tvdb imdb tmdb w) as [Htr Hret];
    try done.
  split; [by apply Hret|done].
Qed.

End Interpreter.

(** ** The statements at concrete inputs *)

Lemma missing_user_ids_is_fatal_witness :
  settings (Sample.env_of Sample.no_user_ids []) = Some Sample.no_user_ids
  ∧ stored Sample.no_user_ids "Plex" "user_ids" = None
  ∧ exit_code (script Sample.repr Sample.limit
                 (Sample.env_of Sample.no_user_ids [])
                 (Sample.opts_of (-1) "trakt_authenticate")).1 = 1.
Proof.
  split; [reflexivity|]. split; [vm_compute; reflexivity|].
  apply (missing_user_ids_is_fatal Sample.repr Sample.limit
           (Sample.env_of Sample.no_user_ids [])
           (Sample.opts_of (-1) "trakt_authenticate") Sample.no_user_ids).
  - reflexivity.
  - vm_compute; reflexivity.
Defined.

Lemma outsider_is_not_synced_witness :
  stored Sample.full "Plex" "user_ids" = Some "12,34"
  ∧ (pretty 99 ∉ split_on "," "12,34")
  ∧ 99 ≠ -1
  ∧ script Sample.repr Sample.limit
      (Sample.env_of Sample.full [Sample.tokens 200 "a1" "r1"])
      (Sample.opts_of 99 "movie") =
    (Exit 0, log (EPrint "We will not sync for this user")
                 (Sample.world_of Sample.full [Sample.tokens 200 "a1" "r1"])).
Proof.
  assert (stored Sample.full "Plex" "user_ids" = Some "12,34") as H1
    by (vm_compute; reflexivity).
  assert (pretty 99 ∉ split_on "," "12,34") as H2
    by (apply (bool_decide_eq_false_1 (pretty 99 ∈ split_on "," "12,34"));
        vm_compute; reflexivity).
  assert (99 ≠ -1) as H3 by lia.
  split; [exact H1|]. split; [exact H2|]. split; [exact H3|].
  exact (proj1 (outsider_is_not_synced Sample.repr Sample.limit
           (Sample.env_of Sample.full [Sample.tokens 200 "a1" "r1"])
           (Sample.opts_of 99 "movie") Sample.full "12,34"
           eq_refl H1 H2 H3)).
Defined.

Lemma unknown_content_type_falls_through_witness :
  ¬ recognised "music"
  ∧ script Sample.repr Sample.limit
      (Sample.env_of Sample.full [Sample.tokens 200 "a1" "r1"])
      (Sample.opts_of 12 "music") =
    (Ret (), log (EPrint "ERROR: music not found - invalid contentType")
                 (Sample.world_of Sample.full [Sample.tokens 200 "a1" "r1"])).
Proof.
  assert (¬ recognised "music") as H1.
  { rewrite recognised_eqb. vm_compute. discriminate. }
  split; [exact H1|].
  refine (proj1 (proj2 (unknown_content_type_falls_through
            Sample.repr Sample.limit
            (Sample.env_of Sample.full [Sample.tokens 200 "a1" "r1"])
            (Sample.opts_of 12 "music") H1) Sample.full eq_refl _)).
  exists "12,34". split; [vm_compute; reflexivity|].
  left. apply (bool_decide_eq_true_1 (pretty 12 ∈ split_on "," "12,34")).
    vm_compute; reflexivity.
Defined.

Lemma missing_client_id_is_fatal_witness :
  stored Sample.no_client_id "Trakt" "client_id" = None
  ∧ script Sample.repr Sample.limit
      (Sample.env_of Sample.no_client_id [Sample.tokens 200 "a1" "r1"])
      (Sample.opts_of 12 "movie") =
    (Exit 1,
     log (EPrint "ERROR: sync_settings.ini not setup - missing client_id")
         (Sample.world_of Sample.no_client_id [Sample.tokens 200 "a1" "r1"])).
Proof.
  assert (stored Sample.no_client_id "Trakt" "client_id" = None) as H1
    by (vm_compute; reflexivity).
  split; [exact H1|].
  refine (proj1 (proj2 (missing_client_id_is_fatal Sample.repr Sample.limit
            (Sample.env_of Sample.no_client_id [Sample.tokens 200 "a1" "r1"])
            (Sample.opts_of 12 "movie") Sample.no_client_id eq_refl H1)
            _ _)).
  - exists "12,34". split; [vm_compute; reflexivity|].
    left. apply (bool_decide_eq_true_1 (pretty 12 ∈ split_on "," "12,34")).
    vm_compute; reflexivity.
  - rewrite recognised_eqb. vm_compute; reflexivity.
Defined.

Lemma poll_failure_is_fatal_witness :
  let w := Sample.world_of Sample.full
             [{| status_code := 500; body := None |};
              Sample.tokens 200 "a1" "r1"] in
  let result :=
    poll_access_token Sample.limit Sample.me
      [("Content-Type", "application/json")] (JStr "dc") w in
  result.1 = Exit 1 ∧ disk result.2 = Some Sample.full.
Proof.
  intros w result.
  destruct (poll_failure_is_fatal Sample.limit Sample.me
              [("Content-Type", "application/json")] (JStr "dc")
              {| status_code := 500; body := None |}
              [Sample.tokens 200 "a1" "r1"] w)
    as (H1 & _ & _ & _ & H2).
  - reflexivity.
  - simpl. lia.
  - simpl. lia.
  - split; [exact H1|exact H2].
Defined.


Lemma watched_at_is_utc_iso8601_witness :
  let w := Sample.world_of Sample.full [Sample.movie_found; Sample.created] in
  valid_datetime (utcnow w)
  ∧ strftime_watched (utcnow w) = "2024-03-09T12:00:07.000Z"
  ∧ parse_watched "2024-03-09T12:00:07.000Z" = Some (whole_second (utcnow w)).
Proof.
  intros w.
  assert (valid_datetime (utcnow w)) as H1.
  { unfold valid_datetime. simpl. lia. }
  split; [exact H1|]. split; [vm_compute; reflexivity|].
  destruct (watched_at_is_utc_iso8601 Sample.repr Sample.a_movie w H1)
    as (_ & Hp & _).
  exact Hp.
Defined.

Lemma sync_history_payload_shape_witness :
  let w := Sample.world_of Sample.full [Sample.movie_found; Sample.created] in
  let w' := Sample.world_of Sample.full
              [Sample.show_found; Sample.episode_found; Sample.created] in
  stored (config w) "Trakt" "access_token" = Some "a0"
  ∧ last (trace (sync_history Sample.repr Sample.a_movie w).2) =
      Some (ERemote (history_request Sample.a_movie "a0"
        (JObj [("movies", JArr [JObj [
           ("watched_at", JStr "2024-03-09T12:00:07.000Z");
           ("title", JStr "X");
           ("year", JNum 2000);
           ("ids", JObj [("trakt", JNum 1); ("slug", JStr "x");
                         ("imdb", JStr "ttX"); ("tmdb", JNum 2)])]])])))
  ∧ last (trace (sync_history Sample.repr Sample.an_episode w').2) =
      Some (ERemote (history_request Sample.an_episode "a0"
        (JObj [("episodes", JArr [JObj [
           ("watched_at", JStr "2024-03-09T12:00:07.000Z");
           ("ids", JObj [("trakt", JNum 7); ("tvdb", JNum 8);
                         ("imdb", JStr "tt9"); ("tmdb", JNum 10)])]])]))).
Proof.
  intros w w'.
  assert (stored (config w) "Trakt" "access_token" = Some "a0") as H1
    by (vm_compute; reflexivity).
  split; [exact H1|]. split.
  - refine (proj1 (proj1 (sync_history_payload_shape Sample.repr
              Sample.a_movie "a0" w H1)
              (JStr "tt0133093") Sample.movie_found [Sample.created]
              (JArr [JObj [("type", JStr "movie"); ("movie", Sample.movie_x)]])
              (JObj [("type", JStr "movie"); ("movie", Sample.movie_x)])
              Sample.movie_x (JStr "X") (JNum 2000)
              (JNum 1) (JStr "x") (JStr "ttX") (JNum 2)
              eq_refl eq_refl eq_refl eq_refl eq_refl eq_refl
              eq_refl eq_refl eq_refl eq_refl eq_refl eq_refl)).
  - refine (proj1 (proj2 (sync_history_payload_shape Sample.repr
              Sample.an_episode "a0" w' H1)
              (JNum 81189) (JNum 1) (JNum 2)
              Sample.show_found Sample.episode_found [Sample.created]
              (JArr [JObj [("type", JStr "show"); ("show", Sample.show_y)]])
              (JObj [("type", JStr "show"); ("show", Sample.show_y)])
              Sample.show_y (JStr "y")
              (JObj [("season", JNum 1); ("number", JNum 2);
                     ("title", JStr "Pilot");
                     ("ids", JObj [("trakt", JNum 7); ("tvdb", JNum 8);
                                   ("imdb", JStr "tt9");
                                   ("tmdb", JNum 10)])])
              (JNum 7) (JNum 8) (JStr "tt9") (JNum 10)
              eq_refl eq_refl eq_refl eq_refl eq_refl eq_refl eq_refl
              eq_refl eq_refl eq_refl eq_refl eq_refl eq_refl eq_refl)).
Defined.

(** The bootstrap of the docstring, [--contentType trakt_authenticate
    --userId -1], against a remote side that answers the first poll with
    400 and would answer the second with the tokens. *)
Example bootstrap_with_one_pending_answer :
  let device :=
    {| status_code := 200;
       body := Some (JObj [("device_code", JStr "dc");
                           ("user_code", JStr "ABCD1234");
                           ("verification_url", JStr "https://trakt.tv/activate")]) |} in
  let pending := {| status_code := 400; body := None |} in
  let run :=
    script Sample.repr Sample.limit
      (Sample.env_of Sample.full
         [device; pending; Sample.tokens 200 "a1" "r1"])
      (Sample.opts_of (-1) "trakt_authenticate") in
  run.1 = Raise TypeError
  ∧ saves (trace run.2) = 0%nat
  ∧ inbox run.2 = [Sample.tokens 200 "a1" "r1"]
  ∧ stored (config run.2) "Trakt" "access_token" = Some "a0".
Proof. vm_compute. done. Qed.

Lemma refresh_without_refresh_token_witness :
  let w := Sample.world_of Sample.no_user_ids [Sample.tokens 200 "a1" "r1"] in
  stored (config w) "Trakt" "refresh_token" = None
  ∧ (refresh_access_token Sample.me w).1 = Exit 1
  ∧ inbox (refresh_access_token Sample.me w).2 = [Sample.tokens 200 "a1" "r1"].
Proof.
  intros w.
  assert (stored (config w) "Trakt" "refresh_token" = None) as H1
    by (vm_compute; reflexivity).
  split; [exact H1|].
  rewrite (refresh_without_refresh_token Sample.me w H1).
  split; reflexivity.
Defined.




Lemma missing_client_secret_is_fatal_witness :
  stored Sample.no_client_secret "Trakt" "client_id" = Some "cid"
  ∧ stored Sample.no_client_secret "Trakt" "client_secret" = None
  ∧ script Sample.repr Sample.limit
      (Sample.env_of Sample.no_client_secret [Sample.issued])
      (Sample.opts_of (-1) "trakt_authenticate") =
    (Exit 1,
     log (EPrint "ERROR: sync_settings.ini not setup - missing client_secret")
         (Sample.world_of Sample.no_client_secret [Sample.issued])).
Proof.
  assert (stored Sample.no_client_secret "Trakt" "client_id" = Some "cid")
    as H1 by (vm_compute; reflexivity).
  assert (stored Sample.no_client_secret "Trakt" "client_secret" = None)
    as H2 by (vm_compute; reflexivity).
  split; [exact H1|]. split; [exact H2|].
  refine (missing_client_secret_is_fatal Sample.repr Sample.limit
            (Sample.env_of Sample.no_client_secret [Sample.issued])
            (Sample.opts_of (-1) "trakt_authenticate")
            Sample.no_client_secret "cid" eq_refl H1 H2 _ _).
  - exists "12,34". split; [vm_compute; reflexivity|]. right. reflexivity.
  - rewrite recognised_eqb. vm_compute; reflexivity.
Defined.

Lemma sync_history_without_access_token_witness :
  let w := Sample.world_of Sample.no_user_ids [Sample.movie_found] in
  stored (config w) "Trakt" "access_token" = None
  ∧ (sync_history Sample.repr Sample.a_movie w).1 = Exit 1
  ∧ inbox (sync_history Sample.repr Sample.a_movie w).2 = [Sample.movie_found].
Proof.
  intros w.
  assert (stored (config w) "Trakt" "access_token" = None) as H1
    by (vm_compute; reflexivity).
  split; [exact H1|].
  rewrite (sync_history_without_access_token Sample.repr Sample.a_movie w H1).
  split; reflexivity.
Defined.

Lemma sync_history_without_hit_witness :
  let w := Sample.world_of Sample.full [Sample.no_hit; Sample.created] in
  getitem0 (JArr []) = Raise IndexError
  ∧ (sync_history Sample.repr Sample.a_movie w).1 = Raise IndexError
  ∧ inbox (sync_history Sample.repr Sample.a_movie w).2 = [Sample.created].
Proof.
  intros w. split; [reflexivity|].
  rewrite (sync_history_without_hit Sample.repr Sample.a_movie "a0"
             (JStr "tt0133093") Sample.no_hit [Sample.created] (JArr [])
             IndexError w eq_refl eq_refl
             ltac:(vm_compute; reflexivity) eq_refl eq_refl eq_refl).
  split; reflexivity.
Defined.


Lemma user_id_only_opens_the_gate_witness :
  let env := Sample.env_of Sample.full [Sample.tokens 200 "a1" "r1"] in
  let_through Sample.full (-1)
  ∧ let_through Sample.full 12
  ∧ script Sample.repr Sample.limit env (Sample.opts_of (-1) "trakt_refresh")
    = script Sample.repr Sample.limit env (Sample.opts_of 12 "trakt_refresh").
Proof.
  intros env.
  assert (let_through Sample.full (-1)) as H1.
  { exists "12,34". split; [vm_compute; reflexivity|]. right. reflexivity. }
  assert (let_through Sample.full 12) as H2.
  { exists "12,34". split; [vm_compute; reflexivity|]. left.
    apply (bool_decide_eq_true_1 (pretty 12 ∈ split_on "," "12,34")).
    vm_compute; reflexivity. }
  split; [exact H1|]. split; [exact H2|].
  exact (user_id_only_opens_the_gate Sample.repr Sample.limit env
           (Sample.opts_of (-1) "trakt_refresh")
           (Sample.opts_of 12 "trakt_refresh") Sample.full
           eq_refl H1 H2 eq_refl eq_refl eq_refl eq_refl eq_refl).
Defined.

Lemma sync_for_user_decides_membership_witness :
  let w := Sample.world_of Sample.full [] in
  [12; 34] ≠ []
  ∧ stored (config w) "Plex" "user_ids" = Some (join "," (pretty <$> [12; 34]))
  ∧ sync_for_user 34 w = (Ret (bool_decide (34 ∈ [12; 34])), w)
  ∧ sync_for_user 3 w = (Ret (bool_decide (3 ∈ [12; 34])), w).
Proof.
  intros w.
  assert ([12; 34] ≠ ([] : list Z)) as H1 by discriminate.
  assert (stored (config w) "Plex" "user_ids"
          = Some (join "," (pretty <$> [12; 34]))) as H2
    by (vm_compute; reflexivity).
  split; [exact H1|]. split; [exact H2|]. split.
  - exact (sync_for_user_decides_membership [12; 34] 34 w H1 H2).
  - exact (sync_for_user_decides_membership [12; 34] 3 w H1 H2).
Defined.

Lemma same_stamp_iff_same_second_witness :
  let later :=
    {| year := 2024; month := 3; day := 9; hour := 12; minute := 0;
       second := 7; microsecond := 999999 |} in
  valid_datetime Sample.noon
  ∧ valid_datetime later
  ∧ strftime_watched Sample.noon = strftime_watched later.
Proof.
  intros later.
  assert (valid_datetime Sample.noon) as H1.
  { unfold valid_datetime. simpl. lia. }
  assert (valid_datetime later) as H2.
  { unfold valid_datetime. simpl. lia. }
  split; [exact H1|]. split; [exact H2|].
  apply (proj2 (same_stamp_iff_same_second Sample.noon later H1 H2)).
  reflexivity.
Defined.

Lemma episode_is_found_through_its_show_witness :
  let w := Sample.world_of Sample.full
             [Sample.show_found; Sample.episode_found; Sample.created] in
  stored (config w) "Trakt" "access_token" = Some "a0"
  ∧ (sync_history Sample.repr Sample.an_episode w).1 = Ret ()
  ∧ remote_calls (trace (sync_history Sample.repr Sample.an_episode w).2)
    = 3%nat.
Proof.
  intros w.
  assert (stored (config w) "Trakt" "access_token" = Some "a0") as H0
    by (vm_compute; reflexivity).
  split; [exact H0|].
  destruct (episode_is_found_through_its_show Sample.repr
              Sample.an_episode "a0" (JNum 81189) (JNum 1) (JNum 2)
              Sample.show_found Sample.episode_found [Sample.created]
              (JArr [JObj [("type", JStr "show"); ("show", Sample.show_y)]])
              (JObj [("type", JStr "show"); ("show", Sample.show_y)])
              Sample.show_y (JStr "y")
              (JObj [("season", JNum 1); ("number", JNum 2);
                     ("title", JStr "Pilot");
                     ("ids", JObj [("trakt", JNum 7); ("tvdb", JNum 8);
                                   ("imdb", JStr "tt9");
                                   ("tmdb", JNum 10)])])
              (JNum 7) (JNum 8) (JStr "tt9") (JNum 10) w
              eq_refl eq_refl eq_refl eq_refl H0 eq_refl eq_refl eq_refl
              eq_refl eq_refl eq_refl eq_refl eq_refl eq_refl eq_refl
              ltac:(discriminate))
    as [H1 H2].
  split; [exact H1|]. rewrite H2. reflexivity.
Defined.
